(** * fabricator-assemble: material registry and context assembly

    A shallow embedding of [src/index.js] (the name resolver, the hierarchy
    classifier, the field namespacer, the material registry, the context
    builder, the bundler, the top-level error handler, the page wrapper,
    the loaders of layouts, includes, data, docs and views, and the
    assembler) together with the
    properties of the natural-language specification, proved or refuted on
    the embedding.

    Conventions of the embedding.
    - A JavaScript string is a list of code units; the code units are the
      256 values of [ascii] (Latin-1).  String literals are written with the
      coercion [lit].
    - A JavaScript object is an association list in insertion order
      ([obj]); a JavaScript value is a [value].
    - Code that can throw returns an [outcome].
    - The Handlebars partial registry and the file system are finite maps
      ([gmap]) keyed by strings.
    - Node's [path] module is modelled in its POSIX flavour.
    - The collaborators the source only calls (globbing, front-matter
      and YAML parsing, markdown rendering, template rendering,
      string-to-number conversion) are section variables.
    - A property read finds own properties only: object keys that name
      a member of [Object.prototype] ([inherited]) are outside the
      embedding, and the properties of passes that read or write a key
      taken from a file name assume that it is not one; directories on
      disk are outside it too (writing a file always succeeds). *)

From Stdlib Require Import Ascii String ZArith Lia Bool List.
From Stdlib Require Import Numbers.DecimalString.
From stdpp Require Import base option list gmap strings.

Set Default Proof Using "Type".
Set Warnings "-register-all".
Local Open Scope string_scope.
Local Open Scope list_scope.

(** ** Strings *)

Abbreviation str := (list ascii).

Definition lit (s : string) : str := list_ascii_of_string s.
Coercion lit : string >-> list.

Definition chr_eqb (a b : ascii) : bool := Ascii.eqb a b.

Fixpoint str_eqb (a b : str) : bool :=
  match a, b with
  | [], [] => true
  | x :: a', y :: b' => chr_eqb x y && str_eqb a' b'
  | _, _ => false
  end.

Definition code (c : ascii) : nat := nat_of_ascii c.

Definition in_range (lo hi : nat) (c : ascii) : bool :=
  (lo <=? code c)%nat && (code c <=? hi)%nat.

(** [\d], [\w], [\s] and [\S] of JavaScript regular expressions, on the
    code units below 256.  [String.prototype.trim] strips the same set as
    [\s]. *)
Definition is_digit (c : ascii) : bool := in_range 48 57 c.

Definition is_word (c : ascii) : bool :=
  in_range 97 122 c || in_range 65 90 c || is_digit c || chr_eqb c "_".

Definition is_space (c : ascii) : bool :=
  in_range 9 13 c || (code c =? 32)%nat || (code c =? 160)%nat.

Definition not_space (c : ascii) : bool := negb (is_space c).

Fixpoint take_while (p : ascii -> bool) (s : str) : str :=
  match s with
  | c :: t => if p c then c :: take_while p t else []
  | [] => []
  end.

Fixpoint drop_while (p : ascii -> bool) (s : str) : str :=
  match s with
  | c :: t => if p c then drop_while p t else s
  | [] => []
  end.

Definition trim_start (s : str) : str := drop_while is_space s.
Definition trim_end (s : str) : str := rev (drop_while is_space (rev s)).

(** [s.trim()] *)
Definition trim (s : str) : str := trim_end (trim_start s).

Fixpoint is_prefix (a b : str) : bool :=
  match a, b with
  | [], _ => true
  | x :: a', y :: b' => chr_eqb x y && is_prefix a' b'
  | _ :: _, [] => false
  end.

Definition is_suffix (a b : str) : bool := is_prefix (rev a) (rev b).

(** [parts.join(sep)] *)
Fixpoint join (sep : str) (parts : list str) : str :=
  match parts with
  | [] => []
  | [p] => p
  | p :: rest => p ++ sep ++ join sep rest
  end.

(** [s.split(re)] for a pattern that is one character class: the pieces
    between the matching characters, empty pieces included. *)
Fixpoint split_on (p : ascii -> bool) (s : str) : list str :=
  match s with
  | [] => [[]]
  | c :: t =>
      if p c then [] :: split_on p t
      else match split_on p t with
           | piece :: more => (c :: piece) :: more
           | [] => [[c]]
           end
  end.

(** [c.toUpperCase()] and [c.toLowerCase()] on the code units below 256
    whose image is again one such code unit. *)
Definition to_upper (c : ascii) : ascii :=
  if in_range 97 122 c then ascii_of_nat (code c - 32)
  else if in_range 224 254 c && negb (code c =? 247)%nat
       then ascii_of_nat (code c - 32) else c.

Definition to_lower (c : ascii) : ascii :=
  if in_range 65 90 c then ascii_of_nat (code c + 32)
  else if in_range 192 222 c && negb (code c =? 215)%nat
       then ascii_of_nat (code c + 32) else c.

(** The default comparison of [Array.prototype.sort]: code unit order. *)
Fixpoint str_leb (a b : str) : bool :=
  match a, b with
  | [], _ => true
  | _ :: _, [] => false
  | x :: a', y :: b' =>
      if (code x <? code y)%nat then true
      else if (code y <? code x)%nat then false
      else str_leb a' b'
  end.

Fixpoint insert_sorted (x : str) (l : list str) : list str :=
  match l with
  | [] => [x]
  | y :: t => if str_leb x y then x :: l else y :: insert_sorted x t
  end.

Definition sort (l : list str) : list str := foldr insert_sorted [] l.

(** ** Regular expressions

    The backtracking matcher of JavaScript, for the constructs the source
    uses: one-character classes, sequence, ordered alternative, greedy and
    lazy repetition, and the anchors [^] and [$] (no multiline flag).
    Capture groups are recovered by the caller from the cursors between
    the parts of a sequence. *)
Module Regex.

Inductive greed := Greedy | Lazy.

Inductive re :=
| Eps
| Chr (p : ascii -> bool)
| Seq (a b : re)
| Alt (a b : re)
| Star (g : greed) (a : re)
| Bol
| Eol.

Definition Lit (c : ascii) : re := Chr (chr_eqb c).
Definition Opt (a : re) : re := Alt a Eps.
Definition Plus (g : greed) (a : re) : re := Seq a (Star g a).

Fixpoint Word (s : str) : re :=
  match s with
  | [] => Eps
  | c :: t => Seq (Lit c) (Word t)
  end.

(** A position in the subject: whether it is index 0, and what is left. *)
Record cursor := Cursor { at_start : bool; rest : str }.

(** Ordered choice: the second is tried only when the first fails. *)
Notation "x 'orelse' y" :=
  (match x with Some v => Some v | None => y end)
  (at level 60, right associativity, only parsing).

Definition shorter (c1 c : cursor) : bool :=
  (length (rest c1) <? length (rest c))%nat.

(** A repetition of [step] followed by [k], with at most [n]
    iterations.  An iteration that consumes nothing is rejected, so the
    length of the rest bounds the number of iterations. *)
Fixpoint star_loop {A} (g : greed)
    (step : cursor -> (cursor -> option A) -> option A)
    (k : cursor -> option A) (n : nat) (c : cursor) : option A :=
  let again :=
    match n with
    | O => None
    | S n' =>
        step c (fun c1 => if shorter c1 c then star_loop g step k n' c1
                          else None)
    end in
  match g with
  | Greedy => again orelse k c
  | Lazy => k c orelse again
  end.

(** [run r c k]: the first way, in backtracking order, to match [r] at
    [c] such that the continuation [k] accepts the cursor after it. *)
Fixpoint run {A} (r : re) (c : cursor) (k : cursor -> option A) : option A :=
  match r with
  | Eps => k c
  | Chr p =>
      match rest c with
      | x :: t => if p x then k (Cursor false t) else None
      | [] => None
      end
  | Seq a b => run a c (fun c1 => run b c1 k)
  | Alt a b => run a c k orelse run b c k
  | Star g a => star_loop g (run a) k (length (rest c)) c
  | Bol => if at_start c then k c else None
  | Eol => match rest c with [] => k c | _ :: _ => None end
  end.

(** The text between two cursors of the same subject. *)
Definition between (c c' : cursor) : str :=
  take (length (rest c) - length (rest c')) (rest c).

(** An attempt at one position yields a payload and the rest after the
    match. *)
Definition attempt (A : Type) := cursor -> option (A * str).

(** The whole match as payload. *)
Definition whole (r : re) : attempt str :=
  fun c => run r c (fun c' => Some (between c c', rest c')).

(** The three capture groups of a pattern [(g1)(g2)(g3)] as payload. *)
Definition groups3 (g : re * re * re) : attempt (str * str * str) :=
  fun c =>
    run (fst (fst g)) c (fun c1 =>
    run (snd (fst g)) c1 (fun c2 =>
    run (snd g) c2 (fun c3 =>
      Some ((between c c1, between c1 c2, between c2 c3), rest c3)))).

(** Leftmost match from a position on: text before, payload, text after. *)
Fixpoint scan {A} (try : attempt A) (b : bool) (s : str)
  : option (str * A * str) :=
  match try (Cursor b s) with
  | Some (x, after) => Some ([], x, after)
  | None =>
      match s with
      | [] => None
      | c :: t =>
          match scan try false t with
          | Some (pre, x, after) => Some (c :: pre, x, after)
          | None => None
          end
      end
  end.

(** [re.test(s)] and [s.match(re) ? true : false] *)
Definition test (r : re) (s : str) : bool :=
  match scan (whole r) true s with
  | Some _ => true
  | None => false
  end.

(** [s.replace(re, f)] without the [g] flag. *)
Definition replace_first {A} (try : attempt A) (f : A -> str) (s : str) : str :=
  match scan try true s with
  | Some (pre, x, after) => pre ++ f x ++ after
  | None => s
  end.

Fixpoint replace_loop {A} (fuel : nat) (try : attempt A) (f : A -> str)
    (b : bool) (s : str) : str :=
  match fuel with
  | O => s
  | S n =>
      match scan try b s with
      | None => s
      | Some (pre, x, after) =>
          pre ++ f x ++
          (if (length pre + length after <? length s)%nat
           then replace_loop n try f false after
           else match after with
                | [] => []
                | c :: t => c :: replace_loop n try f false t
                end)
      end
  end.

(** [s.replace(re, f)] with the [g] flag: every match, left to right,
    the search resuming after the match (one further after an empty
    match). *)
Definition replace_all {A} (try : attempt A) (f : A -> str) (s : str) : str :=
  replace_loop (S (length s)) try f true s.

End Regex.
Import Regex.

(** ** Node's [path] module (POSIX) *)
Module Path.

Definition is_slash (c : ascii) : bool := chr_eqb c "/".
Definition not_slash (c : ascii) : bool := negb (is_slash c).
Definition is_dot (c : ascii) : bool := chr_eqb c ".".
Definition not_dot (c : ascii) : bool := negb (is_dot c).

(** The slashes that end the path, and the last component before them. *)
Definition trailing_slashes (p : str) : str := take_while is_slash (rev p).

Definition last_component (p : str) : str :=
  rev (take_while not_slash (drop_while is_slash (rev p))).

(** [path.extname(p)]: from the last dot of the last component on;
    empty when there is no dot, when the dot is the first character of
    the component, and for the component [..]. *)
Definition extname (p : str) : str :=
  let c := last_component p in
  let r := rev c in
  match drop_while not_dot r with
  | [] => []
  | _ :: before =>
      match before with
      | [] => []
      | _ :: _ =>
          if str_eqb c ".." then []
          else "."%char :: rev (take_while not_dot r)
      end
  end.

(** [path.basename(p)] and [path.basename(p, suffix)].  A suffix is
    dropped from the last component when the component ends with it and
    is longer than it; when the component is a proper end of the
    suffix, the scan of Node runs past it and the result keeps the
    slashes that end the path. *)
Definition basename (p : str) (suffix : option str) : str :=
  let c := last_component p in
  match suffix with
  | None => c
  | Some e =>
      match e with
      | [] => c
      | _ :: _ =>
          if (length p <? length e)%nat then c
          else if str_eqb e p then []
          else if is_suffix e c then
            if (length e =? length c)%nat then c
            else take (length c - length e) c
          else if is_suffix c e then c ++ trailing_slashes p
          else c
      end
  end.

(** [path.dirname(p)] *)
Definition dirname (p : str) : str :=
  match p with
  | [] => "."
  | c0 :: t =>
      match drop_while not_slash (drop_while is_slash (rev t)) with
      | [] => if is_slash c0 then "/" else "."
      | _ :: before =>
          match before with
          | [] => if is_slash c0 then "//" else [c0]
          | _ :: _ => c0 :: rev before
          end
      end
  end.

(** The segment stack of [normalizeString]: empty segments and [.] are
    skipped, [..] removes the segment before it, or stays when there is
    none to remove and the path is relative. *)
Definition push_segment (above_root : bool) (acc : list str) (seg : str)
  : list str :=
  if str_eqb seg [] || str_eqb seg "." then acc
  else if str_eqb seg ".." then
    match acc with
    | [] => if above_root then [seg] else []
    | top :: below =>
        if str_eqb top ".." then (if above_root then seg :: acc else acc)
        else below
    end
  else seg :: acc.

Definition normalize_segments (above_root : bool) (p : str) : list str :=
  rev (fold_left (push_segment above_root) (split_on is_slash p) []).

(** [path.normalize(p)] *)
Definition normalize (p : str) : str :=
  match p with
  | [] => "."
  | c0 :: _ =>
      let absolute := is_slash c0 in
      let trailing := match rev p with c :: _ => is_slash c | [] => false end in
      let body := join "/" (normalize_segments (negb absolute) p) in
      match body with
      | [] => if absolute then "/" else if trailing then "./" else "."
      | _ :: _ =>
          (if absolute then "/" else []) ++ body ++ (if trailing then "/" else [])
      end
  end.

(** [path.join(a, b, ...)] *)
Definition join_paths (parts : list str) : str :=
  match filter (fun s => negb (str_eqb s [])) parts with
  | [] => "."
  | nonempty => normalize (join "/" nonempty)
  end.

End Path.

(** ** Name resolver *)

(** The class [[0-9|\.\-]] of [filterName]: digits, bar, dot, dash. *)
Definition is_order_char (c : ascii) : bool :=
  is_digit c || chr_eqb c "|" || chr_eqb c "." || chr_eqb c "-".

(** The class [[0-9\.]] of [isExcluded]. *)
Definition is_digit_or_dot (c : ascii) : bool :=
  is_digit c || chr_eqb c ".".

(** [/(^[0-9|\.\-]+|)(__|)/] *)
Definition re_order_prefix : re :=
  Seq (Alt (Seq Bol (Plus Greedy (Chr is_order_char))) Eps)
      (Alt (Word "__") Eps).

(** [/\s/g] *)
Definition re_space : re := Chr is_space.

(** [/(^[0-9\.]+|)(__)/] *)
Definition re_hidden : re :=
  Seq (Alt (Seq Bol (Plus Greedy (Chr is_digit_or_dot))) Eps)
      (Word "__").

(** [filterName(name, preserveNumbers)] *)
Definition filterName (name : str) (preserveNumbers : bool) : str :=
  replace_all (whole re_space) (fun _ => lit "-")
    (trim (if preserveNumbers then name
           else replace_first (whole re_order_prefix) (fun _ => []) name)).

(** [getName(filePath, preserveNumbers)] *)
Definition getName (filePath : str) (preserveNumbers : bool) : str :=
  let name := Path.basename filePath (Some (Path.extname filePath)) in
  filterName name preserveNumbers.

(** [isExcluded(filePath)] *)
Definition isExcluded (filePath : str) : bool :=
  let name := Path.basename filePath None in
  test re_hidden name.

(** [/(\-|_)/g] and [/\w\S*/g] of [toTitleCase]. *)
Definition re_dash_or_underscore : re := Alt (Lit "-") (Lit "_").
Definition re_word : re := Seq (Chr is_word) (Star Greedy (Chr not_space)).

Definition capitalize (word : str) : str :=
  match word with
  | [] => []
  | c :: t => to_upper c :: map to_lower t
  end.

(** [toTitleCase(str)] *)
Definition toTitleCase (s : str) : str :=
  replace_all (whole re_word) capitalize
    (replace_all (whole re_dash_or_underscore) (fun _ => lit " ") s).

(** ** JavaScript values, objects and exceptions *)

(** Numbers are the integral ones, and stand for the numbers of
    JavaScript where they are safe integers (below [2^53] in absolute
    value: JavaScript stores these exactly and prints them in full, see
    [safe]); objects that are neither arrays nor plain maps (dates,
    functions) are not represented. *)
Inductive value :=
| VUndef
| VNull
| VBool (b : bool)
| VNum (n : Z)
| VStr (s : str)
| VArr (items : list value)
| VObj (props : list (str * value)).

(** Own enumerable properties, in insertion order, keys distinct. *)
Abbreviation obj := (list (str * value)).

Fixpoint obj_get (o : obj) (k : str) : option value :=
  match o with
  | [] => None
  | (k', v) :: t => if str_eqb k' k then Some v else obj_get t k
  end.

(** [o[k] = v] *)
Fixpoint obj_set (o : obj) (k : str) (v : value) : obj :=
  match o with
  | [] => [(k, v)]
  | (k', v') :: t =>
      if str_eqb k' k then (k', v) :: t else (k', v') :: obj_set t k v
  end.

(** The names of the members of [Object.prototype].  On an object that
    has no property of its own at such a key a read finds the inherited
    member, and a write at [__proto__] replaces the prototype.  The reads
    and writes of the embedding are those of own properties: they are
    the reads and writes of JavaScript at every key that is not
    [inherited]. *)
Definition inherited (k : str) : bool :=
  existsb (str_eqb k)
    [lit "constructor"; lit "__proto__"; lit "hasOwnProperty";
     lit "isPrototypeOf"; lit "propertyIsEnumerable"; lit "toLocaleString";
     lit "toString"; lit "valueOf"; lit "__defineGetter__";
     lit "__defineSetter__"; lit "__lookupGetter__"; lit "__lookupSetter__"].

(** [o[k]] for an own-property read: [undefined] when absent. *)
Definition prop (o : obj) (k : str) : value :=
  match obj_get o k with
  | Some v => v
  | None => VUndef
  end.

(** [_.has(o, k)] *)
Definition has (o : obj) (k : str) : bool :=
  match obj_get o k with
  | Some _ => true
  | None => false
  end.

(** [_.omit(o, k)] *)
Definition omit (o : obj) (k : str) : obj :=
  filter (fun kv => negb (str_eqb (fst kv) k)) o.

(** One source of [_.assign]: its properties are written in order. *)
Definition assign_one (target source : obj) : obj :=
  fold_left (fun acc kv => obj_set acc (fst kv) (snd kv)) source target.

(** [_.assign({}, s1, s2, ...)] where each source is an object or is
    absent ([undefined] or [null], which [_.assign] skips). *)
Definition assign (sources : list (option obj)) : obj :=
  fold_left (fun acc s => match s with
                          | Some o => assign_one acc o
                          | None => acc
                          end) sources [].

(** The digits of an integer: what JavaScript prints for a safe
    integer. *)
Definition decimal (n : Z) : str := NilZero.string_of_int (Z.to_int n).

(** [String(v)] *)
Fixpoint ToString (v : value) : str :=
  match v with
  | VUndef => "undefined"
  | VNull => "null"
  | VBool true => "true"
  | VBool false => "false"
  | VNum n => decimal n
  | VStr s => s
  | VArr items =>
      join "," (map (fun x => match x with
                              | VUndef | VNull => []
                              | _ => ToString x
                              end) items)
  | VObj _ => "[object Object]"
  end.


(** [v ? ... : ...] *)
Definition truthy (v : value) : bool :=
  match v with
  | VUndef | VNull => false
  | VBool b => b
  | VNum n => negb (n =? 0)%Z
  | VStr s => negb (str_eqb s [])
  | VArr _ | VObj _ => true
  end.

(** [a || b] *)
Definition js_or (a b : value) : value := if truthy a then a else b.

(** What reaches a [catch]: an object with its own enumerable properties
    and the ones a property read also finds but [_.assign] does not copy
    (own non-enumerable ones and inherited ones).  The [message] and
    [stack] of an error made by [new Error(m)], and of the errors the
    runtime and [fs] raise, are of the second kind; an exception class
    that assigns [this.message = ...] in its constructor, as js-yaml's
    does, makes it of the first kind. *)
Record thrown := Thrown { enumerable : obj; hidden : obj }.

Definition read (e : thrown) (k : str) : value :=
  match obj_get (enumerable e) k with
  | Some v => v
  | None => prop (hidden e) k
  end.

Inductive exn :=
| TypeError (key : str)   (* property [key] of [undefined] or [null] *)
| Raised (e : thrown).    (* thrown by a collaborator *)

(** The result of code that can throw.  [Unmodelled] marks an input on
    which the source runs library code this embedding does not cover. *)
Inductive outcome (A : Type) :=
| Ok (a : A)
| Throw (e : exn)
| Unmodelled.
Arguments Ok {A} a.
Arguments Throw {A} e.
Arguments Unmodelled {A}.

Definition bind {A B} (m : outcome A) (f : A -> outcome B) : outcome B :=
  match m with
  | Ok a => f a
  | Throw e => Throw e
  | Unmodelled => Unmodelled
  end.

Notation "x <- m ;; k" := (bind m (fun x => k))
  (at level 100, m at level 99, right associativity).

(** [xs.forEach(f)] threading a state, stopping at the first throw. *)
Fixpoint for_each {A S} (f : A -> S -> outcome S) (xs : list A) (s : S)
  : outcome S :=
  match xs with
  | [] => Ok s
  | x :: t => s' <- f x s ;; for_each f t s'
  end.

(** [xs.map(f)] stopping at the first throw. *)
Fixpoint map_each {A B} (f : A -> outcome B) (xs : list A)
  : outcome (list B) :=
  match xs with
  | [] => Ok []
  | x :: t => y <- f x ;; ys <- map_each f t ;; Ok (y :: ys)
  end.

(** [v[k]] where [v] was built by the assembler: an object or
    [undefined]. *)
Definition get_prop (v : value) (k : str) : outcome value :=
  match v with
  | VObj o => Ok (prop o k)
  | VUndef | VNull => Throw (TypeError k)
  | _ => Unmodelled
  end.

(** [v[k] = x], returning [v] after the write. *)
Definition set_prop (v : value) (k : str) (x : value) : outcome value :=
  match v with
  | VObj o => Ok (VObj (obj_set o k x))
  | VUndef | VNull => Throw (TypeError k)
  | _ => Unmodelled
  end.

(** ** Options and assembly state *)

(** [options.materials]: one glob or an array of globs. *)
Inductive patterns :=
| OnePattern (p : str)
| ManyPatterns (ps : list str).

Record options := Options {
  opt_materials : patterns;
  key_materials : str;             (* options.keys.materials *)
  key_views : str;                 (* options.keys.views *)
  key_docs : str;                  (* options.keys.docs *)
  dest : str;
  onError : bool;                  (* _.isFunction(options.onError) *)
  logErrors : bool;
  encloseInComments : bool;
  wrapAndHardResetMaterials : bool
}.

(** The [defaults] of the source, for the options modelled. *)
Definition defaults : options := {|
  opt_materials := ManyPatterns [lit "src/materials/**/*"];
  key_materials := "materials";
  key_views := "views";
  key_docs := "docs";
  dest := "dist";
  onError := false;
  logErrors := false;
  encloseInComments := false;
  wrapAndHardResetMaterials := false
|}.

(** The [assembly] object. *)
Module assembly.
Record t := Make {
  layouts : obj;
  data : obj;
  materials : obj;
  materialData : obj;
  views : obj;
  docs : obj
}.
End assembly.

(** The state the passes work on: the assembly, the template each
    partial name stands for in the registry of Handlebars (which holds it
    as text, and in compiled form once it was used), and the files on
    disk. *)
Record world := World {
  asm : assembly.t;
  partials : gmap str str;
  disk : gmap str str
}.

Definition with_materials (w : world) (m : obj) : world :=
  let a := asm w in
  World (assembly.Make (assembly.layouts a) (assembly.data a) m
                       (assembly.materialData a) (assembly.views a)
                       (assembly.docs a))
        (partials w) (disk w).

Definition with_materialData (w : world) (d : obj) : world :=
  let a := asm w in
  World (assembly.Make (assembly.layouts a) (assembly.data a)
                       (assembly.materials a) d (assembly.views a)
                       (assembly.docs a))
        (partials w) (disk w).

(** [Handlebars.registerPartial(id, content)] *)
Definition registerPartial (w : world) (id content : str) : world :=
  World (asm w) (<[id := content]> (partials w)) (disk w).

(** [fs.writeFileSync(file, content)] *)
Definition writeFileSync (w : world) (file content : str) : world :=
  World (asm w) (partials w) (<[file := content]> (disk w)).

(** ** Context builder *)

(** [buildContext(data, hash)] *)
Definition buildContext (o : options) (a : assembly.t)
    (data hash : option obj) : obj :=
  let materials := [(key_materials o, VObj (assembly.materials a))] in
  let views := [(key_views o, VObj (assembly.views a))] in
  let docs := [(key_docs o, VObj (assembly.docs a))] in
  assign [data; Some (assembly.data a); Some (assembly.materialData a);
          Some materials; Some views; Some docs; hash].

(** ** Error handler *)

Inductive event :=
| CallOnError (error : obj)          (* options.onError(error) *)
| ConsoleError (text stack : value)  (* console.error(text, stack) *)
| Exit (status : Z).                 (* process.exit(status) *)

Definition error_defaults : obj :=
  [(lit "name", VStr "Error");
   (lit "reason", VStr []);
   (lit "message", VStr "An error occurred")].

Definition nl : ascii := ascii_of_nat 10.
Definition cr : ascii := ascii_of_nat 13.
Definition dquote : ascii := ascii_of_nat 34.

Section ErrorHandler.

(** [chalk.bold.red] *)
Variable bold_red : str -> str.

Definition error_line (e : thrown) : value :=
  VStr (bold_red ("Error (fabricator-assemble): "
                  ++ ToString (read e "message") ++ [nl])).

(** [handleError(e)]: the calls it makes, in order. *)
Definition handleError (o : options) (e : thrown) : list event :=
  let error := assign [Some error_defaults; Some (enumerable e)] in
  let called := if onError o then [CallOnError error] else [] in
  let logged :=
    if logErrors o then [ConsoleError (error_line e) (read e "stack")]
    else [] in
  let exit := negb (onError o) && negb (logErrors o) in
  called ++ logged ++
  (if exit then [ConsoleError (error_line e) (read e "stack"); Exit 1]
   else []).

End ErrorHandler.

(** ** Page wrapper *)

(** [/\{\%\s?body\s?\%\}/] *)
Definition re_body : re :=
  Seq (Word "{%")
      (Seq (Opt (Chr is_space))
           (Seq (Word "body") (Seq (Opt (Chr is_space)) (Word "%}")))).

(** What [String.prototype.replace] makes of a replacement that is a
    string, for a pattern without capture groups: [$$] stands for a
    dollar sign, [$&] for the match, [$`] for the text before the match
    and [$'] for the text after it; any other dollar sign stands for
    itself. *)
Fixpoint substitution (matched before after template : str) : str :=
  match template with
  | [] => []
  | c :: t =>
      if chr_eqb c "$" then
        match t with
        | d :: u =>
            if chr_eqb d "$" then "$"%char :: substitution matched before after u
            else if chr_eqb d "&"
            then matched ++ substitution matched before after u
            else if chr_eqb d "`"
            then before ++ substitution matched before after u
            else if chr_eqb d "'"
            then after ++ substitution matched before after u
            else c :: substitution matched before after t
        | [] => [c]
        end
      else c :: substitution matched before after t
  end.

(** [s.replace(re, replacement)] for a replacement that is a string and
    a pattern without capture groups and without the [g] flag. *)
Definition replace_pattern (try : attempt str) (replacement s : str) : str :=
  match scan try true s with
  | Some (before, matched, after) =>
      before ++ substitution matched before after replacement ++ after
  | None => s
  end.

(** [wrapPage(page, layout)], where [layout] is what
    [assembly.layouts[...]] gave. *)
Definition wrapPage (page : str) (layout : value) : outcome str :=
  match layout with
  | VStr l => Ok (replace_pattern (whole re_body) page l)
  | VUndef | VNull => Throw (TypeError "replace")
  | _ => Unmodelled
  end.

(** ** Material registry *)

(** What [getMatter(file)] returns: the front matter, a mapping, and the
    body. *)
Record fileMatter := FileMatter { fm_data : obj; fm_content : str }.

Definition as_array (ps : patterns) : list str :=
  match ps with
  | OnePattern p => [p]
  | ManyPatterns l => l
  end.

(** [dirsGlob] *)
Definition dirsGlob (ps : patterns) : patterns :=
  ManyPatterns (map (fun pattern => Path.dirname pattern ++ lit "/*/")
                    (as_array ps)).

Definition is_separator (c : ascii) : bool :=
  chr_eqb c "/" || chr_eqb c "\".

(** [path.normalize(p).split(/[/\\]/)] *)
Definition pieces (p : str) : list str :=
  split_on is_separator (Path.normalize p).

(** [l.slice(-2, -1)[0]] *)
Definition second_last (l : list str) : option str :=
  match rev l with
  | _ :: x :: _ => Some x
  | _ => None
  end.

(** [l.pop()] on the result of a [split], which is never empty. *)
Definition last_piece (l : list str) : str := List.last l [].

(** [filterName(x)] for an [x] that may be [undefined]: the call of
    [replace] on it then throws. *)
Definition filterName_of (name : option str) : outcome str :=
  match name with
  | Some n => Ok (filterName n false)
  | None => Throw (TypeError "replace")
  end.

(** [dirs.indexOf(x) > -1] *)
Definition includes (dirs : list str) (x : str) : bool :=
  existsb (str_eqb x) dirs.

(** The variables [parent] and [collection] of the three passes. *)
Definition parent_of (file : str) : outcome str :=
  filterName_of (second_last (pieces (Path.dirname file))).

Definition collection_of (file : str) : str :=
  filterName (last_piece (pieces (Path.dirname file))) false.

(** [id] and [key] of the second and third pass. *)
Definition material_id (isSubCollection : bool) (collection file : str) : str :=
  if isSubCollection
  then filterName collection false ++ lit "." ++ getName file false
  else getName file false.

(** [v[k1][k2]...] *)
Fixpoint read_path (v : value) (path : list str) : outcome value :=
  match path with
  | [] => Ok v
  | k :: more => child <- get_prop v k ;; read_path child more
  end.

(** [v[k1][k2]...[kn] = x]; the result is [v] after the write. *)
Fixpoint assign_path (v : value) (path : list str) (x : value)
  : outcome value :=
  match path with
  | [] => Ok x
  | [k] => set_prop v k x
  | k :: more =>
      child <- get_prop v k ;;
      child' <- assign_path child more x ;;
      set_prop v k child'
  end.

Definition root (w : world) : value := VObj (assembly.materials (asm w)).

(** [assembly.materials[k1]...[kn] = x] *)
Definition assign_materials (w : world) (path : list str) (x : value)
  : outcome world :=
  r <- assign_path (root w) path x ;;
  match r with
  | VObj m => Ok (with_materials w m)
  | _ => Unmodelled
  end.

(** The object literal of a collection or sub-collection stub. *)
Definition stub_node (name : str) (exclude : bool) : value :=
  VObj [(lit "name", VStr (toTitleCase name));
        (lit "items", VObj []);
        (lit "exclude", VBool exclude)].

(** [/^(\s*(\r?\n|\r))+|(\s*(\r?\n|\r))+$/g] *)
Definition re_blank_line : re :=
  Seq (Star Greedy (Chr is_space))
      (Alt (Seq (Opt (Lit cr)) (Lit nl)) (Lit cr)).

Definition re_blank_edges : re :=
  Alt (Seq Bol (Plus Greedy re_blank_line))
      (Seq (Plus Greedy re_blank_line) Eol).

(** [id.replace(/\./g, '-')] *)
Definition dashed (id : str) : str :=
  replace_all (whole (Lit ".")) (fun _ => lit "-") id.

(** [p2.replace(/\s/g, '')] *)
Definition strip_spaces (s : str) : str :=
  replace_all (whole re_space) (fun _ => []) s.

(** *** Field namespacer *)

(** Characters that stand for themselves in the source of a pattern. *)
Definition plain_char (c : ascii) : bool :=
  negb (existsb (chr_eqb c) (lit "\^$.*+?()[]{}|")).

Definition is_sigil (c : ascii) : bool := chr_eqb c "#" || chr_eqb c "/".

(** [new RegExp('(\\{\\{[#\/]?)(\\s?' + key + '+?\\s?)(\\}\\})', 'g')]
    as its three groups, for a non-empty [key] of plain characters: the
    [+?] that follows the key binds to its last character.  Other keys
    give a pattern with another meaning, or none. *)
Definition field_pattern (key : str) : option (re * re * re) :=
  match rev key with
  | [] => None
  | final :: front =>
      if forallb plain_char key then
        Some (Seq (Word "{{") (Opt (Chr is_sigil)),
              Seq (Opt (Chr is_space))
                  (Seq (Word (rev front))
                       (Seq (Plus Lazy (Lit final)) (Opt (Chr is_space)))),
              Word "}}")
      else None
  end.

(** The replacement function: [p1 + id.replace(/\./g, '-') + '.' +
    p2.replace(/\s/g, '') + p3]. *)
Definition qualify (id : str) (m : str * str * str) : str :=
  fst (fst m) ++ dashed id ++ lit "." ++ strip_spaces (snd (fst m)) ++ snd m.

(** One step of the [_.forEach(localData, ...)]. *)
Definition namespace_field (id key content : str) : outcome str :=
  match field_pattern key with
  | Some g => Ok (replace_all (groups3 g) (qualify id) content)
  | None => Unmodelled
  end.

(** [_.forEach] visits the keys in insertion order unless the object has
    a key [length] (it may then be taken for an array) or a key made of
    digits (such keys are enumerated first). *)
Definition in_insertion_order (o : obj) : bool :=
  forallb (fun kv => negb (str_eqb (fst kv) "length")
                     && negb (forallb is_digit (fst kv))) o.

(** The rewriting of the local fields of a material. *)
Definition namespace (id : str) (localData : obj) (content : str)
  : outcome str :=
  match localData with
  | [] => Ok content                         (* _.isEmpty(localData) *)
  | _ :: _ =>
      if in_insertion_order localData
      then for_each (fun kv c => namespace_field id (fst kv) c) localData content
      else Unmodelled
  end.

(** [v == true] *)
Section LooseEquality.

(** The number a string converts to, when it is an integral one. *)
Variable string_to_number : str -> option Z.

Definition loosely_true (v : value) : bool :=
  match v with
  | VBool b => b
  | VNum n => (n =? 1)%Z
  | VUndef | VNull => false
  | VStr _ | VArr _ | VObj _ =>
      match string_to_number (ToString v) with
      | Some n => (n =? 1)%Z
      | None => false
      end
  end.

End LooseEquality.

Section Materials.

(** [globby.sync(patterns, { nodir })] *)
Variable globby_sync : bool -> patterns -> list str.
(** [getMatter(file)] *)
Variable getMatter : str -> outcome fileMatter.
(** [md.render(text)] *)
Variable md_render : value -> outcome str.
Variable string_to_number : str -> option Z.
(** [Handlebars.compile(source)(context)] with the partials registered *)
Variable render : gmap str str -> str -> obj -> outcome str.
(** The WebSphere export at the end of the bundling of one file. *)
Variable websphere_export : options -> str -> obj -> world -> outcome world.

(** [dirs] *)
Definition directories (o : options) : outcome (list str) :=
  map_each (fun dir => filterName_of (second_last (pieces dir)))
           (globby_sync false (dirsGlob (opt_materials o))).

(** First pass: stub the base object of each collection.  The read of
    [assembly.materials[materialBase]] is that of an own property: the
    one of JavaScript for a base that is not [inherited]. *)
Definition stub (dirs : list str) (file : str) (w : world) : outcome world :=
  parent <- parent_of file ;;
  let collection := collection_of file in
  let isSubCollection := includes dirs (getName parent false) in
  let materialBase := if isSubCollection then parent else collection in
  Ok (with_materials w
        (obj_set (assembly.materials (asm w)) materialBase
           (js_or (prop (assembly.materials (asm w)) materialBase)
                  (stub_node materialBase
                     (isExcluded (Path.normalize (Path.dirname file))))))).

(** The object literal of a material. *)
Definition item_node (name : str) (fm : fileMatter) (localData : obj)
    (file : str) : outcome value :=
  notes <- (if truthy (prop (fm_data fm) "notes")
            then md_render (prop (fm_data fm) "notes") else Ok []) ;;
  Ok (VObj [(lit "name", VStr (toTitleCase name));
            (lit "notes", VStr notes);
            (lit "data", VObj localData);
            (lit "exclude", VBool (isExcluded file));
            (lit "bundle",
              VBool (if loosely_true string_to_number
                          (prop (fm_data fm) "bundle")
                     then true else false));
            (lit "updated", prop (fm_data fm) "updated")]).

(** [parent] and [isSubCollection] of the second and third pass. *)
Definition classify (dirs : list str) (file : str) : outcome (str * bool) :=
  parent <- parent_of file ;;
  Ok (parent, includes dirs parent).

(** "stub the sub-base object"; the read of [items[collection]] is that
    of an own property: the one of JavaScript for a collection that is
    not [inherited]. *)
Definition stub_sub (file parent collection : str) (w : world)
  : outcome world :=
  _ <- read_path (root w) [parent; lit "items"] ;;
  existing <- read_path (root w) [parent; lit "items"; collection] ;;
  assign_materials w [parent; lit "items"; collection]
    (js_or existing
       (stub_node collection
          (isExcluded (last_piece (pieces (Path.dirname file)))))).

(** "capture meta data for the material" *)
Definition capture (isSubCollection : bool) (parent collection id key : str)
    (fm : fileMatter) (localData : obj) (file : str) (w : world)
  : outcome world :=
  if negb isSubCollection then
    _ <- read_path (root w) [collection; lit "items"] ;;
    node <- item_node id fm localData file ;;
    assign_materials w [collection; lit "items"; key] node
  else
    _ <- read_path (root w) [parent; lit "items"; collection; lit "items"] ;;
    name <- match split_on Path.is_dot id with
            | _ :: second :: _ => Ok second
            | _ => Throw (TypeError "replace")
            end ;;
    node <- item_node name fm localData file ;;
    assign_materials w [parent; lit "items"; collection; lit "items"; key] node.

(** What is registered as the partial of a material. *)
Definition partial_content (o : options) (id : str) (localData : obj)
    (content : str) : outcome str :=
  content <- namespace id localData content ;;
  let content :=
    if wrapAndHardResetMaterials o
    then lit "<div class=" ++ [dquote] ++ lit "hard-reset" ++ [dquote]
         ++ lit " data-toolkit>" ++ [nl] ++ content ++ [nl]
         ++ lit "</div>" ++ [nl]
    else content in
  Ok (if encloseInComments o
      then lit "<!-- START '" ++ id ++ lit "' -->" ++ [nl] ++ content ++ [nl]
           ++ lit "<!-- END '" ++ id ++ lit "' -->" ++ [nl]
      else content).

(** Second pass: capture the meta data of a material and register its
    partial. *)
Definition populate (o : options) (dirs : list str) (file : str) (w : world)
  : outcome world :=
  fileMatter <- getMatter file ;;
  let collection := collection_of file in
  cls <- classify dirs file ;;
  let parent := fst cls in
  let isSubCollection := snd cls in
  let id := material_id isSubCollection collection file in
  let key := material_id isSubCollection collection file in
  w <- (if isSubCollection then stub_sub file parent collection w else Ok w) ;;
  let localData := omit (fm_data fileMatter) "notes" in
  let content :=
    replace_all (whole re_blank_edges) (fun _ => []) (fm_content fileMatter) in
  w <- capture isSubCollection parent collection id key fileMatter localData
         file w ;;
  let w := with_materialData w
             (obj_set (assembly.materialData (asm w)) (dashed id)
                      (VObj localData)) in
  content <- partial_content o id localData content ;;
  Ok (registerPartial w id content).

(** [/\.[0-9a-z]+$/] *)
Definition re_extension : re :=
  Seq (Lit ".")
      (Seq (Plus Greedy (Chr (fun c => is_digit c || in_range 97 122 c))) Eol).

(** [try { fs.writeFileSync(dest, fs.readFileSync(source)) } catch (e) {}],
    the directory of [dest] being there: a copy that fails, for a source
    or a directory that is missing, changes nothing. *)
Definition try_copy (w : world) (source_dest : str * str) : world :=
  match disk w !! fst source_dest with
  | Some content => writeFileSync w (snd source_dest) content
  | None => w
  end.

Definition under (parts : list str) : str :=
  Path.normalize (Path.join_paths parts).

(** The six optional assets of a bundle, source and destination, in the
    order the source copies them. *)
Definition bundle_assets (o : options) (baseName : str) : list (str * str) :=
  let toolkit := [dest o; lit "assets"; lit "toolkit"] in
  let out := [dest o; lit "bundles"; baseName] in
  [(under (toolkit ++ [lit "styles"; lit "bundles"; baseName ++ lit ".css"]),
    under (out ++ [baseName ++ lit ".css"]));
   (under (toolkit ++ [lit "scripts"; lit "bundles"; baseName ++ lit ".js"]),
    under (out ++ [baseName ++ lit ".js"]));
   (under (toolkit ++ [lit "styles"; lit "toolkit.css"]),
    under (out ++ [lit "toolkit.css"]));
   (under (toolkit ++ [lit "scripts"; lit "toolkit.js"]),
    under (out ++ [lit "toolkit.js"]));
   (under (toolkit ++ [lit "styles"; lit "vendor"; lit "vendor.css"]),
    under (out ++ [lit "vendor.css"]));
   (under (toolkit ++ [lit "scripts"; lit "vendor"; lit "vendor.js"]),
    under (out ++ [lit "vendor.js"]))].

(** [baseName] and [filePath] of the bundling of a file. *)
Definition bundle_baseName (file : str) : str :=
  filterName (Path.basename file (Some (lit ".html"))) false.

Definition bundle_filePath (o : options) (file : str) (extension : value)
  : str :=
  let filePath :=
    under [dest o; lit "bundles"; bundle_baseName file;
           filterName (Path.basename file None) false] in
  filterName
    (replace_pattern (whole re_extension)
       (lit "." ++ ToString (js_or extension (VStr "html")))
       filePath) false.

(** Third pass: bundle the material of a file when it is flagged. *)
Definition bundle (o : options) (dirs : list str) (file : str) (w : world)
  : outcome world :=
  let collection := collection_of file in
  cls <- classify dirs file ;;
  let parent := fst cls in
  let isSubCollection := snd cls in
  let key := material_id isSubCollection collection file in
  data <- (if negb isSubCollection
           then read_path (root w) [collection; lit "items"; key]
           else read_path (root w)
                  [parent; lit "items"; collection; lit "items"; key]) ;;
  if negb (truthy data) then Ok w else
  flag <- get_prop data "bundle" ;;
  if negb (truthy flag) then Ok w else
  match data with
  | VObj item =>
      _ <- getMatter file ;;
      let baseName := bundle_baseName file in
      let source := lit "{{> " ++ key ++ lit " }}" in
      let context := buildContext o (asm w) (Some item) None in
      extension <- get_prop (prop item "data") "extension" ;;
      let filePath := bundle_filePath o file extension in
      html <- render (partials w) source context ;;
      let w := writeFileSync w filePath html in
      let w := fold_left try_copy (bundle_assets o baseName) w in
      websphere <- get_prop (prop item "data") "websphere" ;;
      if truthy websphere && has (assembly.data (asm w)) "globals"
      then websphere_export o file item w
      else Ok w
  | _ => Unmodelled
  end.

(** [parseMaterials()] *)
Definition parseMaterials (o : options) (w : world) : outcome world :=
  let w := with_materials w [] in
  let files := sort (globby_sync true (opt_materials o)) in
  dirs <- directories o ;;
  w <- for_each (stub dirs) files w ;;
  w <- for_each (populate o dirs) files w ;;
  for_each (bundle o dirs) files w.

End Materials.

(** ** Layouts, data, docs and views *)

(** The options of the source that name a layout or a set of files. *)
Module globs.
Record t := Make {
  layout : str;
  layouts : patterns;
  layoutIncludes : patterns;
  views : patterns;
  data : patterns;
  docs : patterns
}.
End globs.



Definition with_views (w : world) (v : obj) : world :=
  let a := asm w in
  World (assembly.Make (assembly.layouts a) (assembly.data a)
                       (assembly.materials a) (assembly.materialData a) v
                       (assembly.docs a))
        (partials w) (disk w).



(** [dirname] and [collection] of a view. *)
Definition view_dirname (file : str) : str :=
  last_piece (pieces (Path.dirname file)).

Definition view_collection (o : options) (file : str) : str :=
  if str_eqb (view_dirname file) (key_views o) then [] else view_dirname file.

Section Content.

Variable globby_sync : bool -> patterns -> list str.
Variable getMatter : str -> outcome fileMatter.
Variable md_render : value -> outcome str.
(** [yaml.safeLoad(text)] *)
Variable yaml_safeLoad : str -> outcome value.
Variable render : gmap str str -> str -> obj -> outcome str.









(** The callback of [parseViews].  The read of
    [assembly.views[collection]] is that of an own property: the one of
    JavaScript for a collection that is not [inherited]. *)
Definition view_file (o : options) (file : str) (w : world) : outcome world :=
  let id := getName file true in
  let collection := view_collection o file in
  fileMatter <- getMatter file ;;
  let fileData := omit (fm_data fileMatter) "notes" in
  if truthy (VStr collection) then
    let views := assembly.views (asm w) in
    let views :=
      obj_set views collection
        (js_or (prop views collection)
               (VObj [(lit "name", VStr (toTitleCase collection));
                      (lit "items", VObj [])])) in
    r <- assign_path (VObj views) [collection; lit "items"; id]
           (VObj [(lit "name", VStr (toTitleCase id));
                  (lit "data", VObj fileData);
                  (lit "exclude", VBool (isExcluded file));
                  (lit "updated", prop (fm_data fileMatter) "updated")]) ;;
    match r with
    | VObj v => Ok (with_views w v)
    | _ => Unmodelled
    end
  else Ok w.

(** [parseViews()] *)
Definition parseViews (o : options) (g : globs.t) (w : world)
  : outcome world :=
  for_each (view_file o) (globby_sync true (globs.views g)) (with_views w []).

(** ** Assembler *)




End Content.

(** * Vocabulary of the properties *)

(** The keys of an object are distinct. *)
Definition distinct_keys (o : obj) : Prop := NoDup (map fst o).

Definition distinct_keys_opt (o : option obj) : Prop :=
  match o with
  | Some x => distinct_keys x
  | None => True
  end.

(** What a key reads in an object laid over a lower layer. *)
Definition over (upper : option obj) (k : str) (lower : option value)
  : option value :=
  match upper with
  | Some o => match obj_get o k with
              | Some v => Some v
              | None => lower
              end
  | None => lower
  end.



(** [s.replace(/\s/g, '-')] as a map over the characters. *)
Definition dashes (s : str) : str :=
  flat_map (fun c => if is_space c then lit "-" else [c]) s.

(** What [filterName] removes when numbers are not preserved: the longest
    run of order characters, then one marker [__]. *)
Definition strip_order (s : str) : str :=
  let r := drop_while is_order_char s in
  match r with
  | "_"%char :: "_"%char :: r' => r'
  | _ => r
  end.

(** A directory name: not empty, without separator, neither [.] nor
    [..]. *)
Definition is_segment (s : str) : bool :=
  negb (str_eqb s []) && forallb (fun c => negb (is_separator c)) s
  && negb (str_eqb s ".") && negb (str_eqb s "..").

(** Nothing, or a path that ends with a slash. *)
Definition ends_at_slash (above : str) : Prop :=
  above = [] \/ exists r, above = r ++ lit "/".

(** * Concrete collaborators and inputs *)

Definition empty_world : world :=
  World (assembly.Make [] [] [] [] [] []) ∅ ∅.

(** A material with front matter [{title: "X"}] and body
    [Title: {{title}}]. *)
Definition title_matter : fileMatter :=
  FileMatter [(lit "title", VStr "X")] "Title: {{title}}".

(** A material flagged [bundle: true]. *)
Definition bundle_matter : fileMatter :=
  FileMatter [(lit "bundle", VBool true)] "<button>Go</button>".

Definition no_markdown (text : value) : outcome str := Ok [].

Definition no_numbers (s : str) : option Z := None.

Definition render_nothing (registered : gmap str str) (source : str)
    (context : obj) : outcome str := Ok [].

Definition no_export (o : options) (file : str) (item : obj) (w : world)
  : outcome world := Ok w.

(** The options of the source with a function as [onError]. *)
Definition with_callback (o : options) : options :=
  Options (opt_materials o) (key_materials o) (key_views o) (key_docs o)
          (dest o) true (logErrors o) (encloseInComments o)
          (wrapAndHardResetMaterials o).

(** An error made by [new TypeError(message)]: nothing enumerable. *)
Definition native_error (name message stack : str) : thrown :=
  Thrown [] [(lit "name", VStr name);
             (lit "message", VStr message);
             (lit "stack", VStr stack)].

(** A source tree [src/materials/<parent>/buttons/primary.html] under the
    default globs: the files, and the directories of the second glob. *)
Definition nested_tree (parent : str) (nodir : bool) (ps : patterns)
  : list str :=
  if nodir
  then [lit "src/materials/" ++ parent ++ lit "/buttons/primary.html"]
  else [lit "src/materials/" ++ parent ++ lit "/";
        lit "src/materials/" ++ parent ++ lit "/buttons/"].

(** The file [src/materials/components/buttons/primary.html], the
    identifiers of its directories, and the world after the first pass,
    after the second pass over [bundle_matter], and the node of the
    material then. *)
Definition components_file : str :=
  "src/materials/components/buttons/primary.html".

Definition components_dirs : list str := [lit "components"; lit "buttons"].

Definition components_stubbed : world :=
  match stub components_dirs components_file empty_world with
  | Ok w => w
  | _ => empty_world
  end.

Definition components_populated : world :=
  match populate (fun _ => Ok bundle_matter) no_markdown no_numbers defaults
                 components_dirs components_file components_stubbed with
  | Ok w => w
  | _ => empty_world
  end.


(** The glob [materials/**/*], with the tree
    [materials/components/buttons/primary.html], and with a tree that has
    a directory named like the root. *)
Definition flat_root_glob : options :=
  Options (OnePattern "materials/**/*") "materials" "views" "docs" "dist"
          false false false false.

Definition components_tree (nodir : bool) (ps : patterns) : list str :=
  if nodir then [lit "materials/components/buttons/primary.html"]
  else [lit "materials/components/"; lit "materials/components/buttons/"].

Definition root_named_twice (nodir : bool) (ps : patterns) : list str :=
  if nodir then [lit "materials/buttons/primary.html";
                 lit "materials/materials/readme.html"]
  else [lit "materials/buttons/"; lit "materials/materials/"].

(** * Vocabulary of the further properties *)

(** The cursor [c'] is further in the subject than [c]. *)
Definition extends (c c' : cursor) : Prop :=
  exists m, rest c = m ++ rest c'.

(** A name that starts neither with an order character nor with the
    marker [__]. *)
Definition starts_plain (s : str) : bool :=
  match s with
  | [] => true
  | c :: _ => negb (is_order_char c)
  end && negb (is_prefix "__" s).


(** The keys of a front matter that the namespacer handles. *)
Definition modelled_keys (localData : obj) : bool :=
  in_insertion_order localData
  && forallb (fun kv => match field_pattern (fst kv) with
                        | Some _ => true
                        | None => false
                        end) localData.

(** The word [w] occurs in [s]. *)
Fixpoint occurs (w s : str) : bool :=
  is_prefix w s || match s with [] => false | _ :: t => occurs w t end.

(** At most one character, and that one white space. *)
Definition blank (s : str) : Prop :=
  s = [] \/ exists c, is_space c = true /\ s = [c].

Definition no_dollar (c : ascii) : bool := negb (chr_eqb c "$").

(** A layout around a placeholder [{%body%}], with or without blanks. *)
Definition around (pre s1 s2 post : str) : str :=
  pre ++ lit "{%" ++ s1 ++ lit "body" ++ s2 ++ lit "%}" ++ post.


(** Every entry of the views is a collection with its items. *)
Definition collections (v : obj) : Prop :=
  forall c x, obj_get v c = Some x ->
              exists node items,
                x = VObj node /\ obj_get node "items" = Some (VObj items).



(** The directory of a page below the destination, and the data of a
    page, for the collection [c] of its view. *)
Definition below (c : str) : str :=
  match c with [] => [] | _ :: _ => lit "/" ++ c end.


(** Neither a dash nor an underscore. *)
Definition no_dash (c : ascii) : bool :=
  negb (chr_eqb "-" c || chr_eqb "_" c).









(** * Further concrete inputs *)



(** A tree with a material directly in the directory of the glob. *)
Definition tree_with_root_file (nodir : bool) (ps : patterns) : list str :=
  if nodir then [lit "materials/components/buttons/primary.html";
                 lit "materials/button.html"]
  else [lit "materials/components/"; lit "materials/components/buttons/"].

(** Two layout files with the same identifier, and one other. *)
Definition layout_glob : globs.t :=
  globs.Make "default" (OnePattern "src/views/layouts/*")
             (OnePattern "src/views/layouts/includes/*")
             (OnePattern "src/views/**/*") (OnePattern "src/data/**/*")
             (OnePattern "src/docs/**/*").

Definition layout_tree (nodir : bool) (ps : patterns) : list str :=
  match ps with
  | OnePattern p =>
      if str_eqb p "src/views/layouts/*"
      then [lit "src/views/layouts/01-default.html";
            lit "src/views/layouts/blank.html";
            lit "src/views/layouts/default.html"]
      else if str_eqb p "src/views/**/*"
      then [lit "src/views/index.html";
            lit "src/views/pages/01-about.html"]
      else []
  | ManyPatterns _ => []
  end.

Definition layout_world : world :=
  World (assembly.Make [(lit "old", VStr "stale")] [] [] [] [] []) ∅
        (<[lit "src/views/layouts/01-default.html" := lit "first"]>
         (<[lit "src/views/layouts/blank.html" := lit "{% body %}"]>
          (<[lit "src/views/layouts/default.html"
             := lit "<main>{% body %}</main>"]> ∅))).













(** * Properties *)

(** ** Strings and objects *)

Lemma chr_eqb_eq (a b : ascii) : chr_eqb a b = true <-> a = b.
Proof. apply Ascii.eqb_eq. Qed.

Lemma chr_eqb_refl (a : ascii) : chr_eqb a a = true.
Proof. apply Ascii.eqb_refl. Qed.

Lemma str_eqb_eq (a b : str) : str_eqb a b = true <-> a = b.
Proof.
  revert b. induction a as [|x a IH]; intros [|y b]; simpl; try easy.
  rewrite andb_true_iff, chr_eqb_eq, IH. split.
  - intros [-> ->]. reflexivity.
  - intros [= -> ->]. auto.
Qed.

Lemma str_eqb_refl (a : str) : str_eqb a a = true.
Proof. apply str_eqb_eq. reflexivity. Qed.

Lemma str_eqb_neq (a b : str) : str_eqb a b = false <-> a <> b.
Proof.
  rewrite <- str_eqb_eq. destruct (str_eqb a b); split; congruence.
Qed.

Lemma str_eqb_sym (a b : str) : str_eqb a b = str_eqb b a.
Proof.
  destruct (str_eqb a b) eqn:E.
  - apply str_eqb_eq in E. subst. symmetry. apply str_eqb_refl.
  - symmetry. apply str_eqb_neq. apply str_eqb_neq in E. congruence.
Qed.

(** A write is read back, and leaves the other keys alone. *)
Lemma obj_get_set (o : obj) (k k' : str) (v : value) :
  obj_get (obj_set o k v) k' =
  if str_eqb k k' then Some v else obj_get o k'.
Proof.
  induction o as [|[k0 v0] o IH]; simpl.
  - reflexivity.
  - destruct (str_eqb k0 k) eqn:E0; simpl.
    + apply str_eqb_eq in E0. subst k0.
      destruct (str_eqb k k'); reflexivity.
    + rewrite IH. destruct (str_eqb k k') eqn:E.
      * apply str_eqb_eq in E. subst k'. rewrite E0. reflexivity.
      * reflexivity.
Qed.

Lemma obj_get_none_not_in (o : obj) (k : str) :
  k ∉ map fst o -> obj_get o k = None.
Proof.
  induction o as [|[k0 v0] o IH]; simpl; intros H.
  - reflexivity.
  - apply not_elem_of_cons in H as [H1 H2].
    destruct (str_eqb k0 k) eqn:E.
    + apply str_eqb_eq in E. congruence.
    + apply IH. exact H2.
Qed.

(** Distinctness of the keys of a given object, by computation. *)
Ltac distinct :=
  lazymatch goal with
  | |- distinct_keys_opt None => exact I
  | |- distinct_keys_opt (Some _) =>
      apply (bool_decide_unpack _); vm_compute; reflexivity
  | |- distinct_keys _ =>
      apply (bool_decide_unpack _); vm_compute; reflexivity
  end.

(** Reading after [_.assign] of one source: the source wins. *)
Lemma obj_get_assign_one (target source : obj) (k : str) :
  distinct_keys source ->
  obj_get (assign_one target source) k =
  match obj_get source k with
  | Some v => Some v
  | None => obj_get target k
  end.
Proof.
  unfold assign_one, distinct_keys.
  revert target. induction source as [|[k0 v0] s IH]; intros target ND; simpl.
  - reflexivity.
  - inversion ND as [|? ? Hnin ND']; subst.
    rewrite IH by assumption.
    destruct (str_eqb k0 k) eqn:E.
    + apply str_eqb_eq in E. subst k0.
      rewrite (obj_get_none_not_in s k Hnin).
      rewrite obj_get_set, str_eqb_refl. reflexivity.
    + rewrite obj_get_set, E. reflexivity.
Qed.

(** ** The matcher on the patterns of the name resolver *)

Lemma scan_hit {A} (try : attempt A) (b : bool) (s : str) (x : A)
    (after : str) :
  try (Cursor b s) = Some (x, after) -> scan try b s = Some ([], x, after).
Proof. intros H. destruct s; simpl; rewrite H; reflexivity. Qed.

Lemma scan_miss {A} (try : attempt A) (b : bool) (c : ascii) (t : str) :
  try (Cursor b (c :: t)) = None ->
  scan try b (c :: t) =
  match scan try false t with
  | Some (pre, x, after) => Some (c :: pre, x, after)
  | None => None
  end.
Proof. intros H. simpl. rewrite H. reflexivity. Qed.

(** A match at index 0 replaces the start of the subject. *)
Lemma replace_first_at_start {A} (try : attempt A) (f : A -> str) (s : str)
    (x : A) (after : str) :
  try (Cursor true s) = Some (x, after) ->
  replace_first try f s = f x ++ after.
Proof.
  intros H. unfold replace_first. rewrite (scan_hit _ _ _ _ _ H). reflexivity.
Qed.

(** Where the attempt fails at the first character, the global
    replacement keeps that character and goes on. *)
Lemma replace_loop_skip {A} (try : attempt A) (f : A -> str) (n : nat)
    (b : bool) (c : ascii) (t : str) :
  try (Cursor b (c :: t)) = None ->
  replace_loop (S n) try f b (c :: t) = c :: replace_loop (S n) try f false t.
Proof.
  intros H. cbn [replace_loop]. rewrite (scan_miss _ _ _ _ H).
  destruct (scan try false t) as [[[pre x] after]|]; reflexivity.
Qed.

Lemma whole_chr (p : ascii -> bool) (b : bool) (c : ascii) (t : str) :
  whole (Chr p) (Cursor b (c :: t)) = if p c then Some ([c], t) else None.
Proof.
  unfold whole, between. cbn [run rest]. destruct (p c); [|reflexivity].
  replace (length (c :: t) - length t) with 1 by (simpl; lia).
  reflexivity.
Qed.

(** The global replacement of a one-character class is a map over the
    characters. *)
Lemma replace_loop_chr (p : ascii -> bool) (r : str) (s : str) :
  forall (n : nat) (b : bool),
    length s < n ->
    replace_loop n (whole (Chr p)) (fun _ => r) b s =
    flat_map (fun c => if p c then r else [c]) s.
Proof.
  induction s as [|c t IH]; intros n b Hn.
  - destruct n; reflexivity.
  - destruct n as [|n]; [simpl in Hn; lia|].
    destruct (p c) eqn:E.
    + cbn [replace_loop].
      rewrite (scan_hit _ _ _ [c] t) by (rewrite whole_chr, E; reflexivity).
      cbn [length app flat_map]. rewrite E.
      replace (0 + length t <? S (length t))%nat with true
        by (symmetry; apply Nat.ltb_lt; lia).
      rewrite IH by (simpl in Hn; lia). reflexivity.
    + rewrite replace_loop_skip by (rewrite whole_chr, E; reflexivity).
      rewrite IH by (simpl in Hn; lia).
      cbn [flat_map]. rewrite E. reflexivity.
Qed.

Lemma replace_all_chr (p : ascii -> bool) (r : str) (s : str) :
  replace_all (whole (Chr p)) (fun _ => r) s =
  flat_map (fun c => if p c then r else [c]) s.
Proof. apply replace_loop_chr. lia. Qed.

(** A greedy repetition of a class, before a continuation that never
    fails, takes the longest run. *)
Lemma star_greedy_class {A} (p : ascii -> bool) (k : cursor -> option A)
    (s : str) :
  (forall c, k c <> None) ->
  forall n, length s <= n ->
    star_loop Greedy (run (Chr p)) k n (Cursor false s) =
    k (Cursor false (drop_while p s)).
Proof.
  intros Hk. induction s as [|x t IH]; intros n Hn.
  - destruct n; reflexivity.
  - destruct n as [|n]; [simpl in Hn; lia|].
    cbn [star_loop run rest drop_while]. destruct (p x) eqn:E.
    + unfold shorter. cbn [rest length].
      replace (length t <? S (length t))%nat with true
        by (symmetry; apply Nat.ltb_lt; lia).
      rewrite IH by (simpl in Hn; lia).
      destruct (k (Cursor false (drop_while p t))) eqn:K; [reflexivity|].
      exfalso. exact (Hk _ K).
    + reflexivity.
Qed.

(** The continuation after the first group of [re_order_prefix]. *)
Lemma marker_then_end (c0 : cursor) (b : bool) (r : str) :
  exists m,
    run (Alt (Word "__") Eps) (Cursor b r)
        (fun c' => Some (between c0 c', rest c'))
    = Some (m, match r with
               | "_"%char :: "_"%char :: r' => r'
               | _ => r
               end).
Proof.
  cbn [run Word Lit rest].
  destruct r as [|x r]; [eexists; reflexivity|].
  destruct (chr_eqb "_" x) eqn:E1.
  - apply chr_eqb_eq in E1. subst x.
    destruct r as [|y r]; [eexists; reflexivity|].
    destruct (chr_eqb "_" y) eqn:E2.
    + apply chr_eqb_eq in E2. subst y. eexists. reflexivity.
    + assert (y <> "_"%char) by (intros ->; rewrite chr_eqb_refl in E2; discriminate).
      eexists. f_equal. f_equal.
      destruct y as [[] [] [] [] [] [] [] []]; try reflexivity; congruence.
  - assert (x <> "_"%char) by (intros ->; rewrite chr_eqb_refl in E1; discriminate).
    eexists. f_equal. f_equal.
    destruct x as [[] [] [] [] [] [] [] []]; try reflexivity; congruence.
Qed.

Lemma order_prefix_match (s : str) :
  exists m, whole re_order_prefix (Cursor true s) = Some (m, strip_order s).
Proof.
  unfold whole, re_order_prefix, strip_order, Plus.
  set (c0 := Cursor true s).
  set (k := fun c1 : cursor =>
              run (Alt (Word "__") Eps) c1
                  (fun c' => Some (between c0 c', rest c'))).
  assert (Hk : forall c, k c <> None).
  { intros [b r]. unfold k.
    destruct (marker_then_end c0 b r) as (m & ->). discriminate. }
  change (exists m,
    match run (Seq Bol (Seq (Chr is_order_char)
                            (Star Greedy (Chr is_order_char)))) c0 k with
    | Some v => Some v
    | None => k c0
    end = Some (m, match drop_while is_order_char s with
                   | "_"%char :: "_"%char :: r' => r'
                   | _ => drop_while is_order_char s
                   end)).
  assert (R : run (Seq Bol (Seq (Chr is_order_char)
                                (Star Greedy (Chr is_order_char)))) c0 k =
              match s with
              | x :: t =>
                  if is_order_char x
                  then star_loop Greedy (run (Chr is_order_char)) k
                                 (length t) (Cursor false t)
                  else None
              | [] => None
              end) by reflexivity.
  rewrite R. clear R.
  destruct s as [|x t].
  - unfold k. apply marker_then_end.
  - cbn [drop_while]. destruct (is_order_char x) eqn:E.
    + rewrite star_greedy_class by (auto; lia).
      unfold k at 1.
      destruct (marker_then_end c0 false (drop_while is_order_char t))
        as (m & Hm).
      rewrite Hm. eexists. reflexivity.
    + unfold k. apply marker_then_end.
Qed.

Lemma filterName_plain (name : str) :
  filterName name false = dashes (trim (strip_order name)).
Proof.
  unfold filterName.
  destruct (order_prefix_match name) as (m & Hm).
  rewrite (replace_first_at_start _ _ _ _ _ Hm).
  unfold re_space. rewrite replace_all_chr. reflexivity.
Qed.

Lemma filterName_preserved (name : str) :
  filterName name true = dashes (trim name).
Proof.
  unfold filterName, re_space. rewrite replace_all_chr. reflexivity.
Qed.

(** ** Runs of characters *)

Lemma drop_while_app_all (p : ascii -> bool) (a b : str) :
  forallb p a = true -> drop_while p (a ++ b) = drop_while p b.
Proof.
  induction a as [|c a IH]; simpl; [reflexivity|].
  intros H. apply andb_true_iff in H as [Hc Ha]. rewrite Hc. auto.
Qed.

Lemma take_while_app_all (p : ascii -> bool) (a b : str) :
  forallb p a = true -> take_while p (a ++ b) = a ++ take_while p b.
Proof.
  induction a as [|c a IH]; simpl; [reflexivity|].
  intros H. apply andb_true_iff in H as [Hc Ha]. rewrite Hc, IH; auto.
Qed.

Lemma take_while_all (p : ascii -> bool) (a : str) :
  forallb p a = true -> take_while p a = a.
Proof.
  intros H. rewrite <- (app_nil_r a) at 1.
  rewrite take_while_app_all by exact H. simpl. apply app_nil_r.
Qed.

Lemma drop_while_none (p : ascii -> bool) (a : str) :
  forallb (fun c => negb (p c)) a = true -> drop_while p a = a.
Proof.
  destruct a as [|c a]; simpl; [reflexivity|].
  intros H. apply andb_true_iff in H as [Hc _].
  apply negb_true_iff in Hc. rewrite Hc. reflexivity.
Qed.

(** A run stops inside the first part when that part has a character
    outside the class. *)
Lemma drop_while_app_stop (p : ascii -> bool) (a b : str) :
  forallb p a = false -> drop_while p (a ++ b) = drop_while p a ++ b.
Proof.
  induction a as [|c a IH]; simpl; [discriminate|].
  destruct (p c); simpl; auto.
Qed.

Lemma forallb_rev (p : ascii -> bool) (a : str) :
  forallb p (rev a) = forallb p a.
Proof.
  induction a as [|c a IH]; simpl; [reflexivity|].
  rewrite forallb_app, IH. simpl. rewrite andb_true_r. apply andb_comm.
Qed.

Lemma is_prefix_app (a b : str) : is_prefix a (a ++ b) = true.
Proof.
  induction a as [|c a IH]; simpl; [reflexivity|].
  rewrite chr_eqb_refl. exact IH.
Qed.

Lemma dashes_app (a b : str) : dashes (a ++ b) = dashes a ++ dashes b.
Proof. unfold dashes. apply flat_map_app. Qed.

Lemma dashes_no_space (a : str) :
  forallb not_space a = true -> dashes a = a.
Proof.
  induction a as [|c a IH]; simpl; [reflexivity|].
  intros H. apply andb_true_iff in H as [Hc Ha].
  apply negb_true_iff in Hc. rewrite Hc. simpl. f_equal. exact (IH Ha).
Qed.

(** Trimming a string that starts outside the white space, after a prefix
    that has no white space. *)
Lemma trim_after_prefix (a : str) (c : ascii) (b : str) :
  forallb not_space a = true -> is_space c = false ->
  trim (a ++ c :: b) = a ++ trim (c :: b).
Proof.
  intros Ha Hc.
  assert (Hs : forall x, forallb not_space x = true ->
                         trim_start (x ++ c :: b) = x ++ c :: b).
  { intros [|y x] Hx; unfold trim_start; simpl.
    - rewrite Hc. reflexivity.
    - simpl in Hx. apply andb_true_iff in Hx as [Hy _].
      apply negb_true_iff in Hy. rewrite Hy. reflexivity. }
  unfold trim. rewrite (Hs a Ha).
  pose proof (Hs [] eq_refl) as H0.
  change ([] ++ c :: b) with (c :: b) in H0. rewrite H0.
  unfold trim_end. rewrite rev_app_distr.
  rewrite drop_while_app_stop.
  - rewrite rev_app_distr, rev_involutive. reflexivity.
  - rewrite forallb_rev. simpl. rewrite Hc. reflexivity.
Qed.

(** ** Paths without a slash *)

Lemma last_component_plain (s : str) :
  forallb Path.not_slash s = true -> Path.last_component s = s.
Proof.
  intros H. unfold Path.last_component.
  rewrite drop_while_none.
  - rewrite take_while_all by (rewrite forallb_rev; exact H).
    apply rev_involutive.
  - rewrite forallb_rev. exact H.
Qed.

(** A string has no dot, or a last one. *)
Lemma split_last_dot (s : str) :
  forallb Path.not_dot s = true \/
  exists b e, s = b ++ "."%char :: e /\ forallb Path.not_dot e = true.
Proof.
  induction s as [|c t IH].
  - left. reflexivity.
  - destruct IH as [H | (b & e & -> & He)].
    + simpl. destruct (Path.not_dot c) eqn:E.
      * left. exact H.
      * right. exists [], t. split; [|exact H].
        unfold Path.not_dot, Path.is_dot in E. apply negb_false_iff in E.
        apply chr_eqb_eq in E. subst c. reflexivity.
    + right. exists (c :: b), e. split; [reflexivity|exact He].
Qed.

Lemma str_eqb_length (a b : str) :
  length a <> length b -> str_eqb a b = false.
Proof.
  intros H. apply str_eqb_neq. intros ->. apply H. reflexivity.
Qed.

(** The extension starts at the last dot of the name when something
    stands before that dot, and the name is not [..]; the base is what
    stands before. *)
Lemma name_at_last_dot (b e : str) :
  forallb Path.not_slash b = true -> forallb Path.not_slash e = true ->
  forallb Path.not_dot e = true -> b <> [] ->
  b ++ "."%char :: e <> lit ".." ->
  Path.extname (b ++ "."%char :: e) = "."%char :: e /\
  Path.basename (b ++ "."%char :: e) (Some ("."%char :: e)) = b.
Proof.
  intros Hb He Hd Hne Hdd.
  assert (Hc : Path.last_component (b ++ "."%char :: e) = b ++ "."%char :: e).
  { apply last_component_plain. rewrite forallb_app. simpl.
    rewrite Hb, He. reflexivity. }
  assert (Hr : rev (b ++ "."%char :: e) = rev e ++ "."%char :: rev b).
  { rewrite rev_app_distr. simpl. rewrite <- app_assoc. reflexivity. }
  split.
  - unfold Path.extname. rewrite Hc, Hr.
    rewrite drop_while_app_all by (rewrite forallb_rev; exact Hd).
    cbn [drop_while Path.not_dot Path.is_dot chr_eqb]. simpl Ascii.eqb.
    cbn [negb].
    destruct (rev b) as [|x rb] eqn:Erb.
    { apply (f_equal (@rev ascii)) in Erb. rewrite rev_involutive in Erb.
      simpl in Erb. congruence. }
    apply str_eqb_neq in Hdd. rewrite Hdd.
    rewrite take_while_app_all by (rewrite forallb_rev; exact Hd).
    cbn [take_while Path.not_dot Path.is_dot chr_eqb]. simpl Ascii.eqb.
    cbn [negb]. rewrite app_nil_r, rev_involutive. reflexivity.
  - unfold Path.basename. rewrite Hc.
    assert (Hl : length (b ++ "."%char :: e) = length b + S (length e)).
    { rewrite length_app. reflexivity. }
    assert (Hb0 : 0 < length b) by (destruct b; [congruence|simpl; lia]).
    replace (length (b ++ "."%char :: e) <? length ("."%char :: e))%nat
      with false by (symmetry; apply Nat.ltb_ge; rewrite Hl; simpl; lia).
    rewrite str_eqb_length by (rewrite Hl; simpl; lia).
    unfold is_suffix. rewrite Hr.
    replace (rev ("."%char :: e)) with (rev e ++ ["."%char]) by reflexivity.
    replace (rev e ++ "."%char :: rev b)
      with ((rev e ++ ["."%char]) ++ rev b)
      by (rewrite <- app_assoc; reflexivity).
    rewrite is_prefix_app.
    replace (length ("."%char :: e) =? length (b ++ "."%char :: e))%nat
      with false by (symmetry; apply Nat.eqb_neq; rewrite Hl; simpl; lia).
    replace (length (b ++ "."%char :: e) - length ("."%char :: e))
      with (length b) by (rewrite Hl; simpl; lia).
    apply take_app_length.
Qed.

Lemma getName_at_last_dot (b e : str) (preserveNumbers : bool) :
  forallb Path.not_slash b = true -> forallb Path.not_slash e = true ->
  forallb Path.not_dot e = true -> b <> [] ->
  b ++ "."%char :: e <> lit ".." ->
  getName (b ++ "."%char :: e) preserveNumbers = filterName b preserveNumbers.
Proof.
  intros Hb He Hd Hne Hdd. unfold getName.
  destruct (name_at_last_dot b e Hb He Hd Hne Hdd) as [-> ->]. reflexivity.
Qed.

(** ** Name resolver: the hidden test *)

Lemma marker_hit (b : bool) (post : str) :
  is_Some (whole re_hidden (Cursor b (lit "__" ++ post))).
Proof.
  unfold whole, re_hidden.
  change (is_Some
    match run (Seq Bol (Plus Greedy (Chr is_digit_or_dot)))
              (Cursor b (lit "__" ++ post))
              (fun c1 => run (Word "__") c1
                 (fun c' => Some (between (Cursor b (lit "__" ++ post)) c',
                                  rest c'))) with
    | Some v => Some v
    | None => Some (between (Cursor b (lit "__" ++ post)) (Cursor false post),
                    post)
    end).
  destruct (run _ _ _); eauto.
Qed.

Lemma scan_finds_marker (pre post : str) :
  forall b, is_Some (scan (whole re_hidden) b (pre ++ lit "__" ++ post)).
Proof.
  induction pre as [|c pre IH]; intros b.
  - destruct (marker_hit b post) as ([m after] & H).
    change ([] ++ lit "__" ++ post) with (lit "__" ++ post).
    rewrite (scan_hit _ _ _ _ _ H). eauto.
  - change ((c :: pre) ++ lit "__" ++ post)
      with (c :: (pre ++ lit "__" ++ post)).
    destruct (whole re_hidden (Cursor b (c :: pre ++ lit "__" ++ post)))
      as [[m after]|] eqn:E.
    + rewrite (scan_hit _ _ _ _ _ E). eauto.
    + rewrite (scan_miss _ _ _ _ E).
      destruct (IH false) as ([[p x] after] & ->). eauto.
Qed.

(** C5.  Wherever the marker [__] stands in a basename, [isExcluded]
    answers [true]: also after letters, as in [foo__bar.html], which is
    not of the form "digits and dots, then [__]".  The [^] of the pattern
    is inside the first group, whose other alternative is empty, so the
    pattern finds the marker anywhere. *)
Theorem isExcluded_marker_anywhere (pre post : str) :
  forallb Path.not_slash pre = true ->
  forallb Path.not_slash post = true ->
  isExcluded (pre ++ lit "__" ++ post) = true.
Proof.
  intros Hpre Hpost. unfold isExcluded, Path.basename, test.
  rewrite last_component_plain.
  - destruct (scan_finds_marker pre post true) as (x & ->). reflexivity.
  - rewrite !forallb_app, Hpre, Hpost. reflexivity.
Qed.

Lemma isExcluded_marker_anywhere_witness :
  isExcluded "foo__bar.html" = true.
Proof.
  apply (isExcluded_marker_anywhere "foo" "bar.html"); reflexivity.
Defined.

(** The examples of the specification and of the source's comment. *)
Lemma isExcluded_examples :
  isExcluded "02__hidden.html" = true /\
  isExcluded "02-visible.html" = false /\
  isExcluded "./src/materials/structures/__foo.html" = true /\
  isExcluded "./src/materials/structures/02-bar.html" = false.
Proof. vm_compute. repeat split; reflexivity. Qed.

(** ** Name resolver: the ordering prefix *)

Lemma digit_is_order_char (N : str) :
  forallb is_digit N = true -> forallb is_order_char (N ++ lit "-") = true.
Proof.
  intros H. rewrite forallb_app. apply andb_true_iff. split; [|reflexivity].
  apply forallb_forall. intros c Hc.
  unfold is_order_char.
  rewrite (proj1 (forallb_forall _ _) H c Hc). reflexivity.
Qed.

Lemma digit_not (p : ascii -> bool) (N : str) :
  (forall c, is_digit c = true -> p c = true) -> p "-"%char = true ->
  forallb is_digit N = true -> forallb p (N ++ lit "-") = true.
Proof.
  intros Hp Hd H. rewrite forallb_app. apply andb_true_iff. split.
  - apply forallb_forall. intros c Hc. apply Hp.
    exact (proj1 (forallb_forall _ _) H c Hc).
  - simpl. rewrite Hd. reflexivity.
Qed.

(** A digit is none of the characters with a code outside [48..57]. *)
Lemma digit_code (c : ascii) :
  is_digit c = true -> 48 <= code c <= 57.
Proof.
  unfold is_digit, in_range. intros H.
  apply andb_true_iff in H as [H1 H2].
  apply Nat.leb_le in H1. apply Nat.leb_le in H2. lia.
Qed.

Lemma digit_not_space (c : ascii) : is_digit c = true -> not_space c = true.
Proof.
  intros H. apply digit_code in H. unfold not_space, is_space, in_range.
  apply negb_true_iff.
  destruct (9 <=? code c)%nat eqn:A, (code c <=? 13)%nat eqn:B,
           (code c =? 32)%nat eqn:C, (code c =? 160)%nat eqn:D;
    try reflexivity;
    try apply Nat.leb_le in B; try apply Nat.eqb_eq in C;
    try apply Nat.eqb_eq in D; lia.
Qed.

Lemma digit_not_slash (c : ascii) :
  is_digit c = true -> Path.not_slash c = true.
Proof.
  intros H. unfold Path.not_slash, Path.is_slash. apply negb_true_iff.
  destruct (chr_eqb c "/") eqn:E; [|reflexivity].
  apply chr_eqb_eq in E. subst c. discriminate H.
Qed.

Lemma strip_order_prefix (P b : str) :
  forallb is_order_char P = true -> strip_order (P ++ b) = strip_order b.
Proof.
  intros H. unfold strip_order. rewrite drop_while_app_all by exact H.
  reflexivity.
Qed.

(** The part of [name.ext] before its last dot starts with [name]. *)
Lemma base_of_name (name ext : str) :
  forallb Path.not_slash name = true -> forallb Path.not_slash ext = true ->
  exists b0 e,
    name ++ "."%char :: ext = (name ++ b0) ++ "."%char :: e /\
    forallb Path.not_slash (name ++ b0) = true /\
    forallb Path.not_slash e = true /\ forallb Path.not_dot e = true.
Proof.
  intros Hn He. destruct (split_last_dot ext) as [Hd | (b1 & e & -> & Hd)].
  - exists [], ext. rewrite app_nil_r. auto.
  - rewrite forallb_app in He. apply andb_true_iff in He as [H1 H2].
    simpl in H2. exists ("."%char :: b1), e.
    split; [rewrite <- app_assoc; reflexivity|].
    split; [|split; [|exact Hd]].
    + rewrite forallb_app. simpl. rewrite Hn, H1. reflexivity.
    + exact H2.
Qed.

(** C6, as the code has it.  For a numeric prefix [N] and a non-empty
    [name], with no slash in [name] and [ext]: without preserved numbers
    [N-name.ext] and [name.ext] get the same identifier; with preserved
    numbers, when [name] does not start with white space and [name.ext]
    is not [..], the identifier of [N-name.ext] is [N-] followed by the
    identifier of [name.ext]. *)
Theorem getName_order_prefix (N name ext : str) :
  forallb is_digit N = true ->
  name <> [] ->
  forallb Path.not_slash name = true ->
  forallb Path.not_slash ext = true ->
  getName (N ++ lit "-" ++ name ++ lit "." ++ ext) false
    = getName (name ++ lit "." ++ ext) false /\
  ((exists c rest, name = c :: rest /\ is_space c = false) ->
   name ++ lit "." ++ ext <> lit ".." ->
   getName (N ++ lit "-" ++ name ++ lit "." ++ ext) true
     = N ++ lit "-" ++ getName (name ++ lit "." ++ ext) true).
Proof.
  intros HN Hne Hn He.
  change (lit "-" ++ name ++ lit "." ++ ext)
    with (lit "-" ++ (name ++ "."%char :: ext)).
  change (name ++ lit "." ++ ext) with (name ++ "."%char :: ext).
  rewrite !(app_assoc N (lit "-")).
  set (P := N ++ lit "-").
  assert (HPo : forallb is_order_char P = true)
    by (apply digit_is_order_char; exact HN).
  assert (HPs : forallb Path.not_slash P = true)
    by (apply digit_not; auto using digit_not_slash).
  assert (HPw : forallb not_space P = true)
    by (apply digit_not; auto using digit_not_space).
  destruct (base_of_name name ext Hn He) as (b0 & e & Es & Hb & Hes & Hed).
  rewrite Es. set (b := name ++ b0) in *.
  assert (Hbne : b <> []) by (unfold b; destruct name; [congruence|discriminate]).
  assert (EP : forall flag,
             getName (P ++ b ++ "."%char :: e) flag = filterName (P ++ b) flag).
  { intros flag. rewrite app_assoc. apply getName_at_last_dot; auto.
    - rewrite forallb_app, HPs, Hb. reflexivity.
    - unfold P. destruct N; discriminate.
    - unfold P. destruct N as [|n N']; simpl; [discriminate|].
      intros [= -> _]. discriminate HN. }
  split.
  - rewrite EP, filterName_plain, strip_order_prefix by exact HPo.
    destruct (str_eqb (b ++ "."%char :: e) "..") eqn:Edd.
    + apply str_eqb_eq in Edd.
      assert (Eb : b = lit "." /\ e = []).
      { destruct b as [|x [|y b']]; [congruence| |].
        - injection Edd as -> ->. auto.
        - destruct b'; discriminate Edd. }
      destruct Eb as [-> ->]. vm_compute. reflexivity.
    + apply str_eqb_neq in Edd.
      rewrite getName_at_last_dot by auto.
      rewrite filterName_plain. reflexivity.
  - intros (c & rest & Ec & Hc) Hdd.
    rewrite EP, filterName_preserved.
    rewrite getName_at_last_dot by auto.
    rewrite filterName_preserved.
    assert (Eb : b = c :: (rest ++ b0)) by (unfold b; rewrite Ec; reflexivity).
    rewrite Eb, trim_after_prefix by auto.
    rewrite dashes_app, dashes_no_space by exact HPw. reflexivity.
Qed.

Lemma getName_order_prefix_witness :
  getName "02-bar.html" false = getName "bar.html" false /\
  getName "02-bar.html" true = lit "02-" ++ getName "bar.html" true.
Proof.
  destruct (getName_order_prefix "02" "bar" "html") as [H1 H2];
    [reflexivity | discriminate | reflexivity | reflexivity |].
  split; [exact H1|].
  apply H2; [eexists; eexists; split; reflexivity | discriminate].
Defined.

(** C6, as stated, fails: with an empty name the file [.html] has no
    extension and keeps [html] as its identifier, and with preserved
    numbers a name that starts with a space, or the name [..], differs by
    more than the prefix. *)
Lemma getName_order_prefix_fails :
  getName "5-.html" false <> getName ".html" false /\
  getName "5- a.html" true <> lit "5-" ++ getName " a.html" true /\
  getName "5-.." true <> lit "5-" ++ getName ".." true /\
  getName "5-.html" false = [] /\ getName ".html" false = lit "html" /\
  getName "5- a.html" true = lit "5--a" /\ getName " a.html" true = lit "a" /\
  getName "5-.." true = lit "5-." /\ getName ".." true = lit "..".
Proof. vm_compute. repeat split; (reflexivity || discriminate). Qed.

(** ** Hierarchy classifier *)

Lemma is_segment_spec (s : str) :
  is_segment s = true ->
  s <> [] /\ forallb (fun c => negb (is_separator c)) s = true /\
  forallb Path.not_slash s = true /\
  str_eqb s [] = false /\ str_eqb s "." = false /\ str_eqb s ".." = false.
Proof.
  unfold is_segment. intros H.
  apply andb_true_iff in H as [H H4]. apply andb_true_iff in H as [H H3].
  apply andb_true_iff in H as [H1 H2].
  apply negb_true_iff in H1, H3, H4.
  repeat split; auto.
  - apply str_eqb_neq. exact H1.
  - apply forallb_forall. intros c Hc.
    pose proof (proj1 (forallb_forall _ _) H2 c Hc) as Hs.
    unfold is_separator in Hs. unfold Path.not_slash, Path.is_slash.
    apply negb_true_iff in Hs. apply orb_false_iff in Hs as [Hs _].
    rewrite Hs. reflexivity.
Qed.

Lemma split_on_nonempty (p : ascii -> bool) (s : str) : split_on p s <> [].
Proof.
  induction s as [|c t IH]; simpl; [discriminate|].
  destruct (p c); [discriminate|].
  destruct (split_on p t); discriminate.
Qed.

Lemma split_on_app_sep (p : ascii -> bool) (a b : str) (sep : ascii) :
  p sep = true ->
  split_on p (a ++ sep :: b) = split_on p a ++ split_on p b.
Proof.
  intros Hs. induction a as [|x a IH]; simpl.
  - rewrite Hs. reflexivity.
  - destruct (p x); [rewrite IH; reflexivity|].
    rewrite IH. pose proof (split_on_nonempty p a) as Hn.
    destruct (split_on p a); [congruence|reflexivity].
Qed.

Lemma split_on_plain (p : ascii -> bool) (s : str) :
  forallb (fun c => negb (p c)) s = true -> split_on p s = [s].
Proof.
  induction s as [|c t IH]; simpl; [reflexivity|].
  intros H. apply andb_true_iff in H as [Hc Ht].
  apply negb_true_iff in Hc. rewrite Hc, (IH Ht). reflexivity.
Qed.

(** The pieces of a path that ends with two plain names. *)
Lemma split_on_two_names (p : ascii -> bool) (above gp c : str) :
  p "/"%char = true -> ends_at_slash above ->
  forallb (fun x => negb (p x)) gp = true ->
  forallb (fun x => negb (p x)) c = true ->
  exists l, split_on p (above ++ gp ++ lit "/" ++ c) = l ++ [gp; c].
Proof.
  intros Hp Ha Hg Hc.
  change (lit "/" ++ c) with ("/"%char :: c).
  destruct Ha as [-> | (r & ->)].
  - exists []. simpl.
    rewrite split_on_app_sep by exact Hp.
    rewrite (split_on_plain p gp), (split_on_plain p c) by assumption.
    reflexivity.
  - exists (split_on p r).
    change (lit "/") with ["/"%char].
    replace ((r ++ ["/"%char]) ++ gp ++ "/"%char :: c)
      with ((r ++ "/"%char :: gp) ++ "/"%char :: c)
      by (rewrite <- !app_assoc; reflexivity).
    rewrite !split_on_app_sep by exact Hp.
    rewrite (split_on_plain p gp), (split_on_plain p c) by assumption.
    rewrite <- app_assoc. reflexivity.
Qed.

Lemma second_last_two (l : list str) (a b : str) :
  second_last (l ++ [a; b]) = Some a /\ last_piece (l ++ [a; b]) = b.
Proof.
  split.
  - unfold second_last. rewrite rev_app_distr. reflexivity.
  - unfold last_piece. induction l as [|x l IH]; [reflexivity|].
    simpl. destruct (l ++ [a; b]) eqn:E; [destruct l; discriminate|].
    exact IH.
Qed.

Lemma push_plain_segment (above_root : bool) (acc : list str) (seg : str) :
  is_segment seg = true -> Path.push_segment above_root acc seg = seg :: acc.
Proof.
  intros H. destruct (is_segment_spec seg H) as (_ & _ & _ & E1 & E2 & E3).
  unfold Path.push_segment. rewrite E1, E2, E3. reflexivity.
Qed.

Lemma join_cons (sep x : str) (l : list str) :
  l <> [] -> join sep (x :: l) = x ++ sep ++ join sep l.
Proof. destruct l; [congruence|reflexivity]. Qed.

(** Joining segments that end with two given ones. *)
Lemma join_two_names (l : list str) (gp c : str) :
  exists above,
    join "/" (l ++ [gp; c]) = above ++ gp ++ lit "/" ++ c /\
    ends_at_slash above.
Proof.
  induction l as [|x l (above & E & H)].
  - exists []. split; [reflexivity|left; reflexivity].
  - exists (x ++ lit "/" ++ above). split.
    + change ((x :: l) ++ [gp; c]) with (x :: (l ++ [gp; c])).
      rewrite join_cons by (destruct l; discriminate).
      rewrite E, <- !app_assoc. reflexivity.
    + right. destruct H as [-> | (r & ->)].
      * exists x. rewrite app_nil_r. reflexivity.
      * exists (x ++ lit "/" ++ r). rewrite <- !app_assoc. reflexivity.
Qed.

(** Normalizing a path that ends with two directory names keeps them at
    the end. *)
Lemma normalize_two_names (above gp c : str) :
  ends_at_slash above -> is_segment gp = true -> is_segment c = true ->
  exists above',
    Path.normalize (above ++ gp ++ lit "/" ++ c)
      = above' ++ gp ++ lit "/" ++ c /\
    ends_at_slash above'.
Proof.
  intros Ha Hg Hc.
  destruct (is_segment_spec gp Hg) as (Hgne & _ & Hgs & _).
  destruct (is_segment_spec c Hc) as (Hcne & _ & Hcs & _).
  set (X := above ++ gp ++ lit "/" ++ c).
  destruct (split_on_two_names Path.is_slash above gp c eq_refl Ha Hgs Hcs)
    as (l & Hl). fold X in Hl.
  assert (Hseg : forall ar, exists l',
             Path.normalize_segments ar X = l' ++ [gp; c]).
  { intros ar. unfold Path.normalize_segments. rewrite Hl, fold_left_app.
    simpl. rewrite !push_plain_segment by assumption. simpl.
    eexists. rewrite <- app_assoc. reflexivity. }
  assert (Htr : match rev X with ch :: _ => Path.is_slash ch | [] => false end
                = false).
  { unfold X. rewrite !app_assoc, rev_app_distr.
    destruct (rev c) as [|ch rc] eqn:Erc.
    { apply (f_equal (@rev ascii)) in Erc. rewrite rev_involutive in Erc.
      simpl in Erc. congruence. }
    simpl. rewrite <- forallb_rev, Erc in Hcs. simpl in Hcs.
    apply andb_true_iff in Hcs as [Hch _].
    apply negb_true_iff in Hch. exact Hch. }
  unfold Path.normalize. destruct X as [|c0 X'] eqn:EX.
  { unfold X in EX. destruct above, gp; try discriminate; congruence. }
  rewrite Htr.
  destruct (Hseg (negb (Path.is_slash c0))) as (l' & ->).
  destruct (join_two_names l' gp c) as (above' & -> & Ha').
  destruct (above' ++ gp ++ lit "/" ++ c) as [|y Y] eqn:EY.
  { destruct above', gp; try discriminate; congruence. }
  rewrite <- EY. rewrite app_nil_r.
  destruct (Path.is_slash c0).
  - exists (lit "/" ++ above'). split; [rewrite <- app_assoc; reflexivity|].
    right. destruct Ha' as [-> | (r & ->)].
    + exists []. reflexivity.
    + exists (lit "/" ++ r). rewrite <- app_assoc. reflexivity.
  - exists above'. split; [reflexivity|exact Ha'].
Qed.

(** The directory of a file below a path of at least two characters. *)
Lemma dirname_of_file (X f : str) :
  2 <= length X -> f <> [] -> forallb Path.not_slash f = true ->
  Path.dirname (X ++ lit "/" ++ f) = X.
Proof.
  intros HX Hf Hs.
  destruct X as [|c0 [|c1 X']]; try (simpl in HX; lia).
  unfold Path.dirname. cbn [app].
  change (lit "/" ++ f) with ("/"%char :: f).
  replace (rev (c1 :: X' ++ "/"%char :: f))
    with (rev f ++ "/"%char :: rev (c1 :: X')).
  2:{ change (c1 :: X' ++ "/"%char :: f) with ((c1 :: X') ++ "/"%char :: f).
      rewrite rev_app_distr. simpl. rewrite <- !app_assoc. reflexivity. }
  assert (Hrf : forallb Path.not_slash (rev f) = true)
    by (rewrite forallb_rev; exact Hs).
  assert (E1 : drop_while Path.is_slash (rev f ++ "/"%char :: rev (c1 :: X'))
               = rev f ++ "/"%char :: rev (c1 :: X')).
  { destruct (rev f) as [|y rf] eqn:Erf.
    { apply (f_equal (@rev ascii)) in Erf. rewrite rev_involutive in Erf.
      simpl in Erf. congruence. }
    simpl in Hrf. apply andb_true_iff in Hrf as [Hy _].
    unfold Path.not_slash in Hy. apply negb_true_iff in Hy.
    simpl. rewrite Hy. reflexivity. }
  rewrite E1, drop_while_app_all by exact Hrf.
  cbn [drop_while]. replace (Path.not_slash "/") with false by reflexivity.
  destruct (rev (c1 :: X')) as [|z rz] eqn:Er.
  { apply (f_equal (@rev ascii)) in Er. rewrite rev_involutive in Er.
    discriminate Er. }
  rewrite <- Er, rev_involutive. reflexivity.
Qed.

Lemma includes_In (dirs : list str) (x : str) :
  includes dirs x = true <-> In x dirs.
Proof.
  unfold includes. rewrite existsb_exists. split.
  - intros (y & Hy & E). apply str_eqb_eq in E. subst y. exact Hy.
  - intros H. exists x. split; [exact H|apply str_eqb_refl].
Qed.

Lemma map_each_In {A B} (f : A -> outcome B) (l : list A) (ys : list B) :
  map_each f l = Ok ys ->
  forall y, In y ys <-> exists x, In x l /\ f x = Ok y.
Proof.
  revert ys. induction l as [|x l IH]; intros ys H y; simpl in H.
  - injection H as <-. split; [intros []|intros (x & [] & _)].
  - destruct (f x) as [y0| |] eqn:Fx; simpl in H; try discriminate.
    destruct (map_each f l) as [ys0| |] eqn:M; simpl in H; try discriminate.
    injection H as <-. simpl. rewrite (IH ys0 eq_refl y). split.
    + intros [<- | (x' & Hin & Hf)]; [exists x; auto|exists x'; auto].
    + intros (x' & [<- | Hin] & Hf).
      * left. congruence.
      * right. exists x'. auto.
Qed.

(** Where the second and third pass find [parent] and [collection]. *)
Lemma parent_and_collection (above gp c f : str) :
  ends_at_slash above -> is_segment gp = true -> is_segment c = true ->
  f <> [] -> forallb Path.not_slash f = true ->
  parent_of (above ++ gp ++ lit "/" ++ c ++ lit "/" ++ f)
    = Ok (filterName gp false) /\
  collection_of (above ++ gp ++ lit "/" ++ c ++ lit "/" ++ f)
    = filterName c false.
Proof.
  intros Ha Hg Hc Hf Hfs.
  destruct (is_segment_spec gp Hg) as (Hgne & Hgp & _).
  destruct (is_segment_spec c Hc) as (Hcne & Hcp & _).
  assert (Ed : Path.dirname (above ++ gp ++ lit "/" ++ c ++ lit "/" ++ f)
               = above ++ gp ++ lit "/" ++ c).
  { replace (above ++ gp ++ lit "/" ++ c ++ lit "/" ++ f)
      with ((above ++ gp ++ lit "/" ++ c) ++ lit "/" ++ f)
      by (rewrite <- !app_assoc; reflexivity).
    apply dirname_of_file; auto.
    rewrite !length_app. destruct gp, c; try congruence. simpl. lia. }
  destruct (normalize_two_names above gp c Ha Hg Hc) as (above' & En & Ha').
  destruct (split_on_two_names is_separator above' gp c eq_refl Ha' Hgp Hcp)
    as (l & El).
  unfold parent_of, collection_of, pieces. rewrite Ed, En, El.
  destruct (second_last_two l gp c) as [-> ->]. split; reflexivity.
Qed.

(** C3, as the code has it.  For a file [above/gp/c/f], where [gp] and
    [c] are directory names: the second and third pass take [gp], the
    grandparent directory, as parent and classify the file as
    sub-collection exactly when the normalized name of [gp] is the
    normalized name of one of the directories the second glob enumerates.
    This holds at every depth: for [materials/components/buttons/x.html]
    the test is on [components], and for [materials/buttons/x.html] it is
    on [materials], the root itself. *)
Theorem classify_by_grandparent
    (globby_sync : bool -> patterns -> list str) (o : options)
    (dirs : list str) (above gp c f : str) :
  directories globby_sync o = Ok dirs ->
  ends_at_slash above -> is_segment gp = true -> is_segment c = true ->
  f <> [] -> forallb Path.not_slash f = true ->
  exists b,
    classify dirs (above ++ gp ++ lit "/" ++ c ++ lit "/" ++ f)
      = Ok (filterName gp false, b) /\
    (b = true <->
     exists dir,
       In dir (globby_sync false (dirsGlob (opt_materials o))) /\
       filterName_of (second_last (pieces dir)) = Ok (filterName gp false)).
Proof.
  intros Hd Ha Hg Hc Hf Hfs.
  destruct (parent_and_collection above gp c f Ha Hg Hc Hf Hfs) as [Hp _].
  unfold classify. rewrite Hp. cbn [bind].
  eexists. split; [reflexivity|].
  rewrite includes_In. unfold directories in Hd.
  apply (map_each_In _ _ _ Hd).
Qed.

Lemma classify_by_grandparent_witness :
  exists b,
    classify [lit "components"; lit "buttons"]
             "materials/components/buttons/primary.html"
      = Ok (lit "components", b) /\
    (b = true <->
     exists dir,
       In dir (components_tree false (dirsGlob (opt_materials flat_root_glob)))
       /\ filterName_of (second_last (pieces dir)) = Ok (lit "components")).
Proof.
  apply (classify_by_grandparent components_tree flat_root_glob
           [lit "components"; lit "buttons"] "materials/" "components"
           "buttons" "primary.html").
  - vm_compute. reflexivity.
  - right. exists (lit "materials"). reflexivity.
  - reflexivity.
  - reflexivity.
  - discriminate.
  - reflexivity.
Defined.

(** C3, as stated, fails: when a directory [materials/materials] exists,
    the file [materials/buttons/primary.html], one directory below the
    root, is classified as sub-collection of [materials]. *)
Lemma one_level_file_in_sub_collection :
  directories root_named_twice flat_root_glob
    = Ok [lit "buttons"; lit "materials"] /\
  classify [lit "buttons"; lit "materials"] "materials/buttons/primary.html"
    = Ok (lit "materials", true).
Proof. vm_compute. split; reflexivity. Qed.

(** ** Field namespacer *)

(** C2.  With the one field [title], whatever its value and the id of
    the material, the token [{{titlee}}], whose name is not a field of the
    material, is rewritten: the [+?] appended to the key lets its last
    character repeat. *)
Theorem namespace_rewrites_longer_name (id : str) (v : value) :
  namespace id [(lit "title", v)] "{{titlee}}"
    = Ok (lit "{{" ++ dashed id ++ lit ".titlee}}").
Proof.
  unfold namespace, in_insertion_order, for_each, namespace_field.
  cbv -[dashed]. do 3 f_equal. apply app_nil_r.
Qed.

(** Tokens named [mytitle] or [title.x] are left alone, [{{title}}] is
    rewritten, with a sigil and with spaces too. *)
Lemma namespace_examples :
  namespace "buttons.primary" [(lit "title", VStr "X")]
            "{{title}} {{mytitle}} {{title.x}} {{#title}} {{ title }}"
    = Ok (lit ("{{buttons-primary.title}} {{mytitle}} {{title.x}} "
               ++ "{{#buttons-primary.title}} {{buttons-primary.title}}")).
Proof. vm_compute. reflexivity. Qed.

(** ** Material registry: reads and writes in the tree *)




Lemma prop_set_same (o : obj) (k : str) (x : value) :
  prop (obj_set o k x) k = x.
Proof. unfold prop. rewrite obj_get_set, str_eqb_refl. reflexivity. Qed.



(** ** Material registry: the round trip of a material *)






(** ** Material registry: the bundle flag *)





(** ** Material registry: the two classifications *)

(** C10.  With a parent directory named [v1.2], the first pass looks for
    [getName("v1.2") = "v1"] among the directories, does not find it and
    stubs the collection [buttons]; the second pass looks for [v1.2],
    finds it, and reads [items] of [assembly.materials["v1.2"]], which is
    [undefined]: [parseMaterials] throws. *)
Theorem populate_reads_unstubbed_collection :
  let glob := nested_tree "v1.2" in
  let file := lit "src/materials/v1.2/buttons/primary.html" in
  directories glob defaults = Ok [lit "v1.2"; lit "buttons"] /\
  (exists w, stub [lit "v1.2"; lit "buttons"] file empty_world = Ok w /\
             map fst (assembly.materials (asm w)) = [lit "buttons"]) /\
  classify [lit "v1.2"; lit "buttons"] file = Ok (lit "v1.2", true) /\
  parseMaterials glob (fun _ => Ok title_matter) no_markdown no_numbers
                 render_nothing no_export defaults empty_world
    = Throw (TypeError "items").
Proof.
  cbv zeta. split; [vm_compute; reflexivity|].
  split; [eexists; split; vm_compute; reflexivity|].
  split; vm_compute; reflexivity.
Qed.

(** ** Context builder *)

Lemma obj_get_assign_snoc (sources : list (option obj)) (s : option obj)
    (k : str) :
  distinct_keys_opt s ->
  obj_get (assign (sources ++ [s])) k = over s k (obj_get (assign sources) k).
Proof.
  intros Hs. unfold assign. rewrite fold_left_app. simpl.
  destruct s as [o|]; simpl.
  - apply obj_get_assign_one. exact Hs.
  - reflexivity.
Qed.




(** ** Bundler *)








(** ** Error handler *)

(** C8.  For an error whose message is not an enumerable property, as
    that of every error the runtime makes, the object handed to [onError]
    carries the generic message of the defaults, not the message of the
    error: [_.assign] copies enumerable properties only. *)
Theorem handleError_drops_hidden_message (bold_red : str -> str)
    (o : options) (e : thrown) :
  onError o = true ->
  distinct_keys (enumerable e) ->
  obj_get (enumerable e) "message" = None ->
  exists error more,
    handleError bold_red o e = CallOnError error :: more /\
    obj_get error "message" = Some (VStr "An error occurred").
Proof.
  intros H ND Hm. unfold handleError. rewrite H.
  eexists. eexists. split; [reflexivity|].
  change [Some error_defaults; Some (enumerable e)]
    with (([] ++ [Some error_defaults]) ++ [Some (enumerable e)]).
  rewrite obj_get_assign_snoc by exact ND.
  unfold over at 1. rewrite Hm.
  rewrite obj_get_assign_snoc by distinct. reflexivity.
Qed.

Lemma handleError_drops_hidden_message_witness :
  exists error more,
    handleError (fun s => s) (with_callback defaults)
      (native_error "TypeError" "Cannot read property 'items' of undefined"
                    "TypeError: at parseMaterials")
      = CallOnError error :: more /\
    obj_get error "message" = Some (VStr "An error occurred").
Proof.
  apply handleError_drops_hidden_message;
    [reflexivity | distinct | reflexivity].
Defined.

(** The text that is logged does carry the message of the error. *)
Lemma handleError_logs_message (bold_red : str -> str) (o : options)
    (e : thrown) :
  logErrors o = true ->
  In (ConsoleError
        (VStr (bold_red ("Error (fabricator-assemble): "
                         ++ ToString (read e "message") ++ [nl])))
        (read e "stack"))
     (handleError bold_red o e).
Proof.
  intros H. unfold handleError. rewrite H.
  apply in_or_app. right. apply in_or_app. left. left. reflexivity.
Qed.

(** An enumerable message does reach the callback. *)
Lemma handleError_keeps_enumerable_message (bold_red : str -> str)
    (o : options) (e : thrown) (m : value) :
  onError o = true -> distinct_keys (enumerable e) ->
  obj_get (enumerable e) "message" = Some m ->
  exists error, In (CallOnError error) (handleError bold_red o e) /\
                obj_get error "message" = Some m.
Proof.
  intros H ND Hm. unfold handleError. rewrite H.
  eexists. split.
  - left. reflexivity.
  - change [Some error_defaults; Some (enumerable e)]
      with (([] ++ [Some error_defaults]) ++ [Some (enumerable e)]).
    rewrite obj_get_assign_snoc by exact ND.
    unfold over at 1. rewrite Hm. reflexivity.
Qed.

(** * Further properties *)

(** ** The matcher: what a match consumes *)

Lemma extends_refl (c : cursor) : extends c c.
Proof. exists []. reflexivity. Qed.

Lemma extends_trans (c1 c2 c3 : cursor) :
  extends c1 c2 -> extends c2 c3 -> extends c1 c3.
Proof.
  intros (m1 & H1) (m2 & H2). exists (m1 ++ m2).
  rewrite H1, H2, app_assoc. reflexivity.
Qed.

(** A repetition hands to its continuation a cursor further in the
    subject, when its step does. *)
Lemma star_loop_suffix {A} (g : greed)
    (step : cursor -> (cursor -> option A) -> option A)
    (k : cursor -> option A) :
  (forall c k' x, step c k' = Some x ->
                  exists c', k' c' = Some x /\ extends c c') ->
  forall n c x, star_loop g step k n c = Some x ->
                exists c', k c' = Some x /\ extends c c'.
Proof.
  intros Hstep. induction n as [|n IH]; intros c x H.
  - cbn [star_loop] in H. destruct g.
    + exists c. split; [exact H|apply extends_refl].
    + destruct (k c) eqn:K; [|discriminate].
      exists c. split; [congruence|apply extends_refl].
  - cbn [star_loop] in H.
    assert (Again : forall y,
               step c (fun c1 => if shorter c1 c
                                 then star_loop g step k n c1 else None)
               = Some y ->
               exists c', k c' = Some y /\ extends c c').
    { intros y Hy. destruct (Hstep _ _ _ Hy) as (c1 & H1 & E1).
      destruct (shorter c1 c); [|discriminate].
      destruct (IH _ _ H1) as (c' & H' & E'). exists c'.
      split; [exact H'|exact (extends_trans _ _ _ E1 E')]. }
    destruct g.
    + destruct (step c _) as [y|] eqn:S.
      * injection H as <-. apply Again. reflexivity.
      * exists c. split; [exact H|apply extends_refl].
    + destruct (k c) as [y|] eqn:K.
      * injection H as <-. exists c. split; [exact K|apply extends_refl].
      * apply Again. exact H.
Qed.

(** Whatever a pattern matches, its continuation is called further in the
    subject: a match is a piece of the subject. *)
Lemma run_suffix {A} (r : re) :
  forall c (k : cursor -> option A) x,
    run r c k = Some x -> exists c', k c' = Some x /\ extends c c'.
Proof.
  induction r as [|p|a IHa b IHb|a IHa b IHb|g a IHa| |]; intros c k x H;
    cbn [run] in H.
  - exists c. split; [exact H|apply extends_refl].
  - destruct c as [b0 s]. cbn [rest] in H. destruct s as [|y t]; [discriminate|].
    destruct (p y); [|discriminate].
    exists (Cursor false t). split; [exact H|]. exists [y]. reflexivity.
  - destruct (IHa _ _ _ H) as (c1 & H1 & E1).
    destruct (IHb _ _ _ H1) as (c' & H' & E').
    exists c'. split; [exact H'|exact (extends_trans _ _ _ E1 E')].
  - destruct (run a c k) as [y|] eqn:Ra.
    + injection H as <-. exact (IHa _ _ _ Ra).
    + exact (IHb _ _ _ H).
  - exact (star_loop_suffix g (run a) k IHa _ _ _ H).
  - destruct (at_start c); [|discriminate].
    exists c. split; [exact H|apply extends_refl].
  - destruct (rest c); [|discriminate].
    exists c. split; [exact H|apply extends_refl].
Qed.

(** The payload of [whole] is the matched text, and the rest follows
    it. *)
Lemma whole_split (r : re) (c : cursor) (m after : str) :
  whole r c = Some (m, after) -> rest c = m ++ after.
Proof.
  unfold whole. intros H.
  destruct (run_suffix r _ _ _ H) as (c' & H' & (m' & E)).
  injection H' as <- <-. unfold between. rewrite E.
  rewrite length_app.
  replace (length m' + length (rest c') - length (rest c')) with (length m')
    by lia.
  rewrite take_app_length. reflexivity.
Qed.

Lemma scan_split (r : re) (s : str) :
  forall b pre m after,
    scan (whole r) b s = Some (pre, m, after) -> s = pre ++ m ++ after.
Proof.
  induction s as [|c t IH]; intros b pre m after H.
  - simpl in H. destruct (whole r (Cursor b [])) as [[m0 a0]|] eqn:W;
      [|discriminate].
    injection H as <- <- <-. exact (whole_split _ _ _ _ W).
  - simpl in H. destruct (whole r (Cursor b (c :: t))) as [[m0 a0]|] eqn:W.
    + injection H as <- <- <-. exact (whole_split _ _ _ _ W).
    + destruct (scan (whole r) false t) as [[[p0 m0] a0]|] eqn:S;
        [|discriminate].
      injection H as <- <- <-. simpl. f_equal. exact (IH _ _ _ _ S).
Qed.

(** ** Name resolver: identifiers *)

Lemma dashes_out (s : str) : forallb not_space (dashes s) = true.
Proof.
  induction s as [|c s IH]; simpl; [reflexivity|].
  destruct (is_space c) eqn:E; simpl.
  - exact IH.
  - unfold not_space at 1. rewrite E. exact IH.
Qed.

Lemma trim_no_space (s : str) : forallb not_space s = true -> trim s = s.
Proof.
  intros H. unfold trim, trim_start, trim_end.
  rewrite (drop_while_none is_space s) by exact H.
  rewrite drop_while_none by (rewrite forallb_rev; exact H).
  apply rev_involutive.
Qed.

Lemma filterName_spaceless (name : str) (preserveNumbers : bool) :
  forallb not_space (filterName name preserveNumbers) = true.
Proof.
  destruct preserveNumbers.
  - rewrite filterName_preserved. apply dashes_out.
  - rewrite filterName_plain. apply dashes_out.
Qed.

(** X1.  An identifier never contains white space, with and without
    preserved numbers. *)
Theorem filterName_no_space (name : str) (preserveNumbers : bool) :
  forallb not_space (filterName name preserveNumbers) = true.
Proof. apply filterName_spaceless. Qed.

(** X2.  An identifier is a fixed point of the number-preserving filter:
    filtering it again with preserved numbers changes nothing. *)
Theorem filterName_preserved_again (name : str) (preserveNumbers : bool) :
  filterName (filterName name preserveNumbers) true
  = filterName name preserveNumbers.
Proof.
  pose proof (filterName_spaceless name preserveNumbers) as H.
  rewrite filterName_preserved, trim_no_space by exact H.
  apply dashes_no_space. exact H.
Qed.

Lemma strip_order_plain (s : str) : starts_plain s = true -> strip_order s = s.
Proof.
  unfold starts_plain, strip_order. intros H.
  apply andb_true_iff in H as [H1 H2]. apply negb_true_iff in H2.
  destruct s as [|c s]; [reflexivity|].
  apply negb_true_iff in H1. cbn [drop_while]. rewrite H1.
  destruct (chr_eqb "_" c) eqn:E1.
  - apply chr_eqb_eq in E1. subst c.
    destruct s as [|d s]; [reflexivity|].
    destruct (chr_eqb "_" d) eqn:E2.
    + apply chr_eqb_eq in E2. subst d. discriminate H2.
    + destruct d as [[] [] [] [] [] [] [] []]; try reflexivity;
        discriminate E2.
  - destruct c as [[] [] [] [] [] [] [] []]; try reflexivity;
      discriminate E1.
Qed.

(** X3.  A name without white space that starts neither with an order
    character (digit, bar, dot, dash) nor with the marker [__] is its own
    identifier. *)
Theorem filterName_fixed (name : str) :
  forallb not_space name = true -> starts_plain name = true ->
  filterName name false = name.
Proof.
  intros Hs Hp.
  rewrite filterName_plain, strip_order_plain, trim_no_space by assumption.
  apply dashes_no_space. exact Hs.
Qed.

Lemma filterName_fixed_witness :
  filterName "buttons.primary" false = lit "buttons.primary".
Proof. apply filterName_fixed; reflexivity. Defined.

(** ** Name resolver: the directory of a path *)

Lemma take_drop_while (p : ascii -> bool) (s : str) :
  take_while p s ++ drop_while p s = s.
Proof.
  induction s as [|c s IH]; simpl; [reflexivity|].
  destruct (p c); simpl; [rewrite IH|]; reflexivity.
Qed.

Lemma drop_while_stops (p : ascii -> bool) (s : str) (d : ascii) (t : str) :
  drop_while p s = d :: t -> p d = false.
Proof.
  induction s as [|c s IH]; simpl; [discriminate|].
  destruct (p c) eqn:E; [exact IH|]. intros [= <- _]. exact E.
Qed.

Lemma take_while_length (p : ascii -> bool) (s : str) :
  length (take_while p s) <= length s.
Proof.
  induction s as [|c s IH]; simpl; [lia|]. destruct (p c); simpl; lia.
Qed.

Lemma drop_while_length (p : ascii -> bool) (s : str) :
  length (drop_while p s) <= length s.
Proof.
  induction s as [|c s IH]; simpl; [lia|]. destruct (p c); simpl; lia.
Qed.

Lemma take_while_out (p : ascii -> bool) (s : str) :
  forallb p (take_while p s) = true.
Proof.
  induction s as [|c s IH]; simpl; [reflexivity|].
  destruct (p c) eqn:E; simpl; [rewrite E; exact IH|reflexivity].
Qed.

Lemma last_component_no_slash (p : str) :
  forallb Path.not_slash (Path.last_component p) = true.
Proof.
  unfold Path.last_component. rewrite forallb_rev. apply take_while_out.
Qed.

Lemma last_component_again (p : str) :
  Path.last_component (Path.last_component p) = Path.last_component p.
Proof. apply last_component_plain, last_component_no_slash. Qed.

Lemma last_component_below (dir f : str) :
  f <> [] -> forallb Path.not_slash f = true ->
  Path.last_component (dir ++ lit "/" ++ f) = f.
Proof.
  intros Hne Hf. unfold Path.last_component.
  change (lit "/" ++ f) with ("/"%char :: f).
  rewrite rev_app_distr. simpl rev. rewrite <- app_assoc. simpl app.
  assert (Hr : forallb Path.not_slash (rev f) = true)
    by (rewrite forallb_rev; exact Hf).
  destruct (rev f) as [|y rf] eqn:E.
  { apply (f_equal (@rev ascii)) in E. rewrite rev_involutive in E.
    simpl in E. congruence. }
  rewrite <- E in *.
  assert (D : drop_while Path.is_slash (rev f ++ "/"%char :: rev dir)
              = rev f ++ "/"%char :: rev dir).
  { rewrite E. rewrite E in Hr. simpl in Hr.
    apply andb_true_iff in Hr as [Hy _].
    unfold Path.not_slash in Hy. apply negb_true_iff in Hy.
    simpl. rewrite Hy. reflexivity. }
  rewrite D, take_while_app_all by exact Hr.
  simpl. rewrite app_nil_r. apply rev_involutive.
Qed.

Lemma extname_of_component (p : str) :
  Path.extname p = Path.extname (Path.last_component p).
Proof. unfold Path.extname. rewrite last_component_again. reflexivity. Qed.

(** A non-empty extension is a proper end of the last component. *)
Lemma extname_proper (p : str) (x : ascii) (e : str) :
  Path.extname p = x :: e ->
  exists b, b <> [] /\ Path.last_component p = b ++ x :: e.
Proof.
  unfold Path.extname. set (c := Path.last_component p).
  pose proof (take_drop_while Path.not_dot (rev c)) as T.
  destruct (drop_while Path.not_dot (rev c)) as [|d before] eqn:D;
    [discriminate|].
  destruct before as [|y before]; [discriminate|].
  destruct (str_eqb c ".."); [discriminate|].
  intros [= <- <-].
  assert (Ed : d = "."%char).
  { pose proof (drop_while_stops _ _ _ _ D) as Hd.
    unfold Path.not_dot, Path.is_dot in Hd. apply negb_false_iff in Hd.
    apply chr_eqb_eq in Hd. exact Hd. }
  subst d. exists (rev (y :: before)). split.
  - intros E. apply (f_equal (@rev ascii)) in E.
    rewrite rev_involutive in E. discriminate E.
  - apply (f_equal (@rev ascii)) in T. rewrite rev_involutive in T.
    remember (take_while Path.not_dot (rev c)) as tw.
    rewrite <- T, rev_app_distr. simpl. rewrite <- !app_assoc. reflexivity.
Qed.

(** The base name without its extension depends on the last component
    only. *)
Lemma basename_of_component (p : str) :
  Path.basename p (Some (Path.extname p))
  = Path.basename (Path.last_component p)
                  (Some (Path.extname (Path.last_component p))).
Proof.
  rewrite <- extname_of_component.
  destruct (Path.extname p) as [|x e] eqn:E.
  - unfold Path.basename. rewrite last_component_again. reflexivity.
  - destruct (extname_proper p x e E) as (b & Hb & Hc).
    unfold Path.basename. rewrite last_component_again, Hc.
    assert (Lc : length (b ++ x :: e) = length b + S (length e))
      by (rewrite length_app; reflexivity).
    assert (Lb : 0 < length b) by (destruct b; [congruence|simpl; lia]).
    assert (Lp : length (b ++ x :: e) <= length p).
    { rewrite <- Hc. unfold Path.last_component. rewrite length_rev.
      pose proof (take_while_length Path.not_slash
                    (drop_while Path.is_slash (rev p))).
      pose proof (drop_while_length Path.is_slash (rev p)).
      rewrite length_rev in *. lia. }
    replace (length p <? length (x :: e))%nat with false
      by (symmetry; apply Nat.ltb_ge; simpl in *; lia).
    replace (length (b ++ x :: e) <? length (x :: e))%nat with false
      by (symmetry; apply Nat.ltb_ge; simpl in *; lia).
    rewrite (str_eqb_length (x :: e) p) by (simpl in *; lia).
    rewrite (str_eqb_length (x :: e) (b ++ x :: e)) by (simpl in *; lia).
    assert (S : is_suffix (x :: e) (b ++ x :: e) = true).
    { unfold is_suffix. rewrite rev_app_distr. apply is_prefix_app. }
    rewrite S. reflexivity.
Qed.

(** X4.  The identifier of a file does not depend on the directories
    before its name. *)
Theorem getName_ignores_directory (dir f : str) (preserveNumbers : bool) :
  f <> [] -> forallb Path.not_slash f = true ->
  getName (dir ++ lit "/" ++ f) preserveNumbers = getName f preserveNumbers.
Proof.
  intros Hne Hf. unfold getName.
  rewrite (basename_of_component (dir ++ lit "/" ++ f)).
  rewrite (basename_of_component f).
  rewrite last_component_below, last_component_plain by assumption.
  reflexivity.
Qed.

Lemma getName_ignores_directory_witness :
  getName "src/materials/01-components/02-bar.html" false
  = getName "02-bar.html" false.
Proof.
  apply (getName_ignores_directory "src/materials/01-components"
                                   "02-bar.html" false);
    [discriminate|reflexivity].
Defined.

(** ** Name resolver: the hidden test, both ways *)

Lemma marker_needed {A} (c : cursor) (k : cursor -> option A) (x : A) :
  run (Word "__") c k = Some x -> exists t, rest c = lit "__" ++ t.
Proof.
  destruct c as [b0 s]. intros H.
  change (Word "__") with (Seq (Lit "_") (Seq (Lit "_") Eps)) in H.
  cbn [run Lit rest] in H.
  destruct s as [|a s]; [discriminate H|].
  destruct (chr_eqb "_" a) eqn:Ea; [|discriminate H].
  destruct s as [|b s]; [discriminate H|].
  destruct (chr_eqb "_" b) eqn:Eb; [|discriminate H].
  apply chr_eqb_eq in Ea, Eb. subst a b. exists s. reflexivity.
Qed.

Lemma hidden_match_has_marker (c : cursor) (x : str * str) :
  whole re_hidden c = Some x ->
  exists pre post, rest c = pre ++ lit "__" ++ post.
Proof.
  unfold whole, re_hidden. intros H.
  change (run (Alt (Seq Bol (Plus Greedy (Chr is_digit_or_dot))) Eps) c
              (fun c1 => run (Word "__") c1
                           (fun c' => Some (between c c', rest c')))
          = Some x) in H.
  apply run_suffix in H. destruct H as (c1 & H1 & (m & E)).
  destruct (marker_needed _ _ _ H1) as (t & Et).
  exists m, t. rewrite E, Et. reflexivity.
Qed.

Lemma scan_needs_marker (s : str) :
  forall b x, scan (whole re_hidden) b s = Some x ->
              exists pre post, s = pre ++ lit "__" ++ post.
Proof.
  induction s as [|c t IH]; intros b x H; simpl in H.
  - destruct (whole re_hidden (Cursor b [])) as [y|] eqn:W; [|discriminate].
    exact (hidden_match_has_marker _ _ W).
  - destruct (whole re_hidden (Cursor b (c :: t))) as [y|] eqn:W.
    + exact (hidden_match_has_marker _ _ W).
    + destruct (scan (whole re_hidden) false t) as [y|] eqn:S; [|discriminate].
      destruct (IH _ _ S) as (pre & post & ->).
      exists (c :: pre), post. reflexivity.
Qed.

(** X5.  [isExcluded] answers [true] exactly when the marker [__] occurs
    in the last component of the path: a marker in the name of a
    directory above does not count, and a name without two underscores in
    a row is never flagged. *)
Theorem isExcluded_iff_marker (filePath : str) :
  isExcluded filePath = true <->
  exists pre post, Path.last_component filePath = pre ++ lit "__" ++ post.
Proof.
  unfold isExcluded, Path.basename, test. split.
  - destruct (scan (whole re_hidden) true (Path.last_component filePath))
      as [x|] eqn:S; [|discriminate].
    intros _. exact (scan_needs_marker _ _ _ S).
  - intros (pre & post & ->).
    destruct (scan_finds_marker pre post true) as (x & ->). reflexivity.
Qed.

(** ** Field namespacer: the key of the name-spaced data *)

(** X6.  The key under which the data of a material is name-spaced has
    the length of the id and no dot. *)
Theorem dashed_no_dot (id : str) :
  length (dashed id) = length id /\
  forallb Path.not_dot (dashed id) = true.
Proof.
  unfold dashed, Lit. rewrite replace_all_chr.
  change (lit "-") with ["-"%char].
  induction id as [|c id [IH1 IH2]]; [split; reflexivity|].
  cbn [flat_map]. destruct (chr_eqb "." c) eqn:E; cbn [app length forallb].
  - split; [rewrite IH1; reflexivity|rewrite IH2; reflexivity].
  - split; [rewrite IH1; reflexivity|].
    rewrite IH2, andb_true_r. unfold Path.not_dot, Path.is_dot.
    apply negb_true_iff. destruct (chr_eqb c ".") eqn:F; [|reflexivity].
    apply chr_eqb_eq in F. subst c. discriminate E.
Qed.

(** ** Error handler: what it does with an error *)

(** X7.  The process is ended exactly when there is neither a callback
    nor logging, and then after the error has been written to the
    console; with a callback or logging, nothing ends the process, the
    callback is called once and before the log line. *)
Theorem handleError_exit (bold_red : str -> str) (o : options) (e : thrown) :
  (In (Exit 1) (handleError bold_red o e) <->
   onError o = false /\ logErrors o = false) /\
  (onError o = false -> logErrors o = false ->
   handleError bold_red o e
   = [ConsoleError (error_line bold_red e) (read e "stack"); Exit 1]) /\
  (onError o = true -> logErrors o = true ->
   exists error,
     handleError bold_red o e
     = [CallOnError error;
        ConsoleError (error_line bold_red e) (read e "stack")]).
Proof.
  unfold handleError.
  destruct (onError o), (logErrors o); cbn [negb andb app].
  - split; [split|split].
    + intros [H|[H|[]]]; discriminate H.
    + intros [H _]. discriminate H.
    + intros H. discriminate H.
    + intros _ _. eexists. reflexivity.
  - split; [split|split].
    + intros [H|[]]. discriminate H.
    + intros [H _]. discriminate H.
    + intros H. discriminate H.
    + intros _ H. discriminate H.
  - split; [split|split].
    + intros [H|[]]. discriminate H.
    + intros [_ H]. discriminate H.
    + intros _ H. discriminate H.
    + intros H. discriminate H.
  - split; [split|split].
    + intros _. split; reflexivity.
    + intros _. right. left. reflexivity.
    + intros _ _. reflexivity.
    + intros H. discriminate H.
Qed.

(** X8.  The object handed to the callback reads, at every key, the
    enumerable property of the error when it has one, else the default
    ([name], [reason], [message]), else nothing. *)
Theorem handleError_reported_object (bold_red : str -> str) (o : options)
    (e : thrown) :
  onError o = true -> distinct_keys (enumerable e) ->
  exists error more,
    handleError bold_red o e = CallOnError error :: more /\
    forall k, obj_get error k
              = over (Some (enumerable e)) k (obj_get error_defaults k).
Proof.
  intros H ND. unfold handleError. rewrite H.
  eexists. eexists. split; [reflexivity|]. intros k.
  change [Some error_defaults; Some (enumerable e)]
    with (([] ++ [Some error_defaults]) ++ [Some (enumerable e)]).
  rewrite obj_get_assign_snoc by exact ND.
  rewrite obj_get_assign_snoc by distinct.
  unfold over at 2. cbn [assign fold_left obj_get].
  destruct (obj_get error_defaults k); reflexivity.
Qed.

Lemma handleError_reported_object_witness :
  exists error more,
    handleError (fun s => s) (with_callback defaults)
      (Thrown [(lit "name", VStr "YAMLException");
               (lit "reason", VStr "bad indentation");
               (lit "message", VStr "bad indentation at line 2")] [])
    = CallOnError error :: more /\
    forall k, obj_get error k
              = over (Some [(lit "name", VStr "YAMLException");
                            (lit "reason", VStr "bad indentation");
                            (lit "message", VStr "bad indentation at line 2")])
                     k (obj_get error_defaults k).
Proof.
  apply (handleError_reported_object (fun s => s) (with_callback defaults)
           (Thrown [(lit "name", VStr "YAMLException");
                    (lit "reason", VStr "bad indentation");
                    (lit "message", VStr "bad indentation at line 2")] []));
    [reflexivity | distinct].
Defined.

(** ** Material registry: the first pass *)

Lemma obj_get_truthy_prop (o : obj) (k : str) (v : value) :
  obj_get o k = Some v -> prop o k = v.
Proof. unfold prop. intros ->. reflexivity. Qed.

(** X9.  When the directory of a file has a grandparent and the base
    name the first pass chooses is not the name of a member of
    [Object.prototype], the first pass returns; afterwards the base entry
    of the tree is the node that was there, when there was one, and else
    a new stub (the title of the base, no items, the hidden test of the
    directory); every other entry of the tree is as it was, and so are
    the partials, the disk, the data, the name-spaced data, the layouts,
    the views and the docs. *)
Theorem stub_keeps_nodes (dirs : list str) (file parent : str) (w : world) :
  let base := if includes dirs (getName parent false)
              then parent else collection_of file in
  let m := assembly.materials (asm w) in
  parent_of file = Ok parent ->
  inherited base = false ->
  exists w',
    stub dirs file w = Ok w' /\
    obj_get (assembly.materials (asm w')) base
    = Some (if truthy (prop m base) then prop m base
            else stub_node base
                   (isExcluded (Path.normalize (Path.dirname file)))) /\
    (forall k, k <> base ->
               obj_get (assembly.materials (asm w')) k = obj_get m k) /\
    partials w' = partials w /\ disk w' = disk w /\
    assembly.data (asm w') = assembly.data (asm w) /\
    assembly.materialData (asm w') = assembly.materialData (asm w) /\
    assembly.layouts (asm w') = assembly.layouts (asm w) /\
    assembly.views (asm w') = assembly.views (asm w) /\
    assembly.docs (asm w') = assembly.docs (asm w).
Proof.
  intros base m Hp _. unfold stub. rewrite Hp. cbn [bind].
  fold base. fold m.
  eexists. split; [reflexivity|].
  unfold with_materials.
  cbn [asm assembly.materials partials disk assembly.materialData
       assembly.data assembly.layouts assembly.views assembly.docs].
  split; [|split; [|repeat split]].
  - rewrite obj_get_set, str_eqb_refl. reflexivity.
  - intros k Hk. rewrite obj_get_set.
    destruct (str_eqb base k) eqn:E; [|reflexivity].
    apply str_eqb_eq in E. congruence.
Qed.

Lemma stub_keeps_nodes_witness :
  exists w',
    stub components_dirs "src/materials/components/alerts/warning.html"
         components_stubbed = Ok w' /\
    obj_get (assembly.materials (asm w')) "components"
    = Some (if truthy (prop (assembly.materials (asm components_stubbed))
                            "components")
            then prop (assembly.materials (asm components_stubbed))
                      "components"
            else stub_node "components"
                   (isExcluded
                      (Path.normalize
                         (Path.dirname
                            "src/materials/components/alerts/warning.html"))))
    /\
    (forall k, k <> lit "components" ->
               obj_get (assembly.materials (asm w')) k
               = obj_get (assembly.materials (asm components_stubbed)) k) /\
    partials w' = partials components_stubbed /\
    disk w' = disk components_stubbed /\
    assembly.data (asm w') = assembly.data (asm components_stubbed) /\
    assembly.materialData (asm w')
    = assembly.materialData (asm components_stubbed) /\
    assembly.layouts (asm w') = assembly.layouts (asm components_stubbed) /\
    assembly.views (asm w') = assembly.views (asm components_stubbed) /\
    assembly.docs (asm w') = assembly.docs (asm components_stubbed).
Proof.
  apply (stub_keeps_nodes components_dirs
           "src/materials/components/alerts/warning.html" "components"
           components_stubbed).
  - vm_compute. reflexivity.
  - reflexivity.
Defined.

(** ** Material registry: the second pass on any material *)

Lemma bind_ok {A B} (m : outcome A) (f : A -> outcome B) (b : B) :
  bind m f = Ok b -> exists a, m = Ok a /\ f a = Ok b.
Proof. destruct m as [a| |]; simpl; try discriminate. eauto. Qed.



Lemma assign_materials_frame (w w' : world) (path : list str) (x : value) :
  assign_materials w path x = Ok w' -> exists m, w' = with_materials w m.
Proof.
  unfold assign_materials. intros H. apply bind_ok in H as (r & _ & H).
  destruct r; try discriminate. injection H as <-. eauto.
Qed.





Lemma stub_sub_frame (file parent collection : str) (w w' : world) :
  stub_sub file parent collection w = Ok w' ->
  exists m, w' = with_materials w m.
Proof.
  unfold stub_sub. intros H. apply bind_ok in H as (? & _ & H).
  apply bind_ok in H as (? & _ & H).
  exact (assign_materials_frame _ _ _ _ H).
Qed.

Lemma capture_frame (md_render : value -> outcome str)
    (string_to_number : str -> option Z) (isSubCollection : bool)
    (parent collection id key : str) (fm : fileMatter) (localData : obj)
    (file : str) (w w' : world) :
  capture md_render string_to_number isSubCollection parent collection id key
          fm localData file w = Ok w' ->
  exists m, w' = with_materials w m.
Proof.
  unfold capture. destruct isSubCollection; cbn [negb]; intros H.
  - apply bind_ok in H as (? & _ & H). apply bind_ok in H as (? & _ & H).
    apply bind_ok in H as (? & _ & H).
    exact (assign_materials_frame _ _ _ _ H).
  - apply bind_ok in H as (? & _ & H). apply bind_ok in H as (? & _ & H).
    exact (assign_materials_frame _ _ _ _ H).
Qed.

(** X11.  The second pass on a file touches, beside the materials tree,
    only the partial of the file's id and the name-spaced data of its
    dashed id: every other partial and every other entry of the
    name-spaced data is as before, and so are the disk, the data files,
    the layouts, the views and the docs. *)
Theorem populate_frame
    (getMatter : str -> outcome fileMatter)
    (md_render : value -> outcome str) (string_to_number : str -> option Z)
    (o : options) (dirs : list str) (file : str) (w w' : world)
    (parent : str) (isSubCollection : bool) :
  let id := material_id isSubCollection (collection_of file) file in
  classify dirs file = Ok (parent, isSubCollection) ->
  populate getMatter md_render string_to_number o dirs file w = Ok w' ->
  (forall k, k <> id -> partials w' !! k = partials w !! k) /\
  (forall k, k <> dashed id ->
             obj_get (assembly.materialData (asm w')) k
             = obj_get (assembly.materialData (asm w)) k) /\
  disk w' = disk w /\
  assembly.data (asm w') = assembly.data (asm w) /\
  assembly.layouts (asm w') = assembly.layouts (asm w) /\
  assembly.views (asm w') = assembly.views (asm w) /\
  assembly.docs (asm w') = assembly.docs (asm w).
Proof.
  intros id Hc H. unfold populate in H.
  apply bind_ok in H as (fm & _ & H). rewrite Hc in H.
  cbn [bind fst snd] in H. fold id in H.
  apply bind_ok in H as (w1 & H1 & H).
  apply bind_ok in H as (w2 & H2 & H).
  apply bind_ok in H as (content & _ & H). injection H as <-.
  assert (E1 : exists m, w1 = with_materials w m).
  { destruct isSubCollection.
    - exact (stub_sub_frame _ _ _ _ _ H1).
    - injection H1 as <-. exists (assembly.materials (asm w)).
      destruct w as [[] ? ?]. reflexivity. }
  destruct E1 as (m1 & ->).
  apply capture_frame in H2 as (m2 & ->).
  unfold registerPartial, with_materialData, with_materials.
  cbn [asm partials disk assembly.materialData assembly.data
       assembly.layouts assembly.views assembly.docs assembly.materials].
  split; [|split; [|repeat split]].
  - intros k Hk. apply lookup_insert_ne. congruence.
  - intros k Hk. rewrite obj_get_set.
    destruct (str_eqb (dashed id) k) eqn:E; [|reflexivity].
    apply str_eqb_eq in E. congruence.
Qed.

Lemma populate_frame_witness :
  (forall k, k <> lit "buttons.primary" ->
             partials components_populated !! k
             = partials components_stubbed !! k) /\
  (forall k, k <> dashed "buttons.primary" ->
             obj_get (assembly.materialData (asm components_populated)) k
             = obj_get (assembly.materialData (asm components_stubbed)) k) /\
  disk components_populated = disk components_stubbed /\
  assembly.data (asm components_populated)
  = assembly.data (asm components_stubbed) /\
  assembly.layouts (asm components_populated)
  = assembly.layouts (asm components_stubbed) /\
  assembly.views (asm components_populated)
  = assembly.views (asm components_stubbed) /\
  assembly.docs (asm components_populated)
  = assembly.docs (asm components_stubbed).
Proof.
  apply (populate_frame (fun _ => Ok bundle_matter) no_markdown no_numbers
           defaults components_dirs components_file components_stubbed
           components_populated "components" true).
  - vm_compute. reflexivity.
  - vm_compute. reflexivity.
Defined.

(** ** Material registry: the passes together *)






(** ** Material registry: files without a grandparent directory *)

Lemma dirname_of_root_file (d f : str) :
  d <> [] -> forallb Path.not_slash d = true ->
  f <> [] -> forallb Path.not_slash f = true ->
  Path.dirname (d ++ lit "/" ++ f) = d.
Proof.
  intros Hd Hds Hf Hs. destruct d as [|c0 X']; [congruence|].
  cbn [forallb] in Hds. apply andb_true_iff in Hds as [Hc0 HX].
  unfold Path.dirname. cbn [app].
  change (lit "/" ++ f) with ("/"%char :: f).
  rewrite rev_app_distr. cbn [rev]. rewrite <- app_assoc. cbn [app].
  assert (Hrf : forallb Path.not_slash (rev f) = true)
    by (rewrite forallb_rev; exact Hs).
  assert (E1 : drop_while Path.is_slash (rev f ++ "/"%char :: rev X')
               = rev f ++ "/"%char :: rev X').
  { destruct (rev f) as [|y rf] eqn:Erf.
    { apply (f_equal (@rev ascii)) in Erf. rewrite rev_involutive in Erf.
      simpl in Erf. congruence. }
    simpl in Hrf. apply andb_true_iff in Hrf as [Hy _].
    unfold Path.not_slash in Hy. apply negb_true_iff in Hy.
    simpl. rewrite Hy. reflexivity. }
  rewrite E1, drop_while_app_all by exact Hrf.
  cbn [drop_while]. replace (Path.not_slash "/") with false by reflexivity.
  unfold Path.not_slash in Hc0. apply negb_true_iff in Hc0.
  destruct (rev X') as [|z rz] eqn:Er.
  - apply (f_equal (@rev ascii)) in Er. rewrite rev_involutive in Er.
    subst X'. rewrite Hc0. reflexivity.
  - rewrite <- Er, rev_involutive. reflexivity.
Qed.

Lemma normalize_segment (d : str) :
  is_segment d = true -> Path.normalize d = d.
Proof.
  intros Hd. destruct (is_segment_spec d Hd) as (Hne & Hsep & Hsl & _).
  assert (A : match d with c :: _ => Path.is_slash c | [] => false end
              = false).
  { destruct d as [|c r]; [reflexivity|].
    cbn [forallb] in Hsl. apply andb_true_iff in Hsl as [H _].
    apply negb_true_iff in H. exact H. }
  assert (T : match rev d with c :: _ => Path.is_slash c | [] => false end
              = false).
  { assert (R : forallb Path.not_slash (rev d) = true)
      by (rewrite forallb_rev; exact Hsl).
    destruct (rev d) as [|c r]; [reflexivity|].
    cbn [forallb] in R. apply andb_true_iff in R as [H _].
    apply negb_true_iff in H. exact H. }
  unfold Path.normalize, Path.normalize_segments.
  rewrite (split_on_plain Path.is_slash d) by exact Hsl.
  cbv zeta. cbn [fold_left]. rewrite T.
  assert (P : forall b, Path.push_segment b [] d = [d])
    by (intros b; apply push_plain_segment; exact Hd).
  destruct d as [|c0 d']; [congruence|].
  rewrite A, P. cbn. rewrite !app_nil_r. reflexivity.
Qed.

(** Where the three passes look for the parent of a file that lies in a
    directory named by one segment. *)
Lemma parent_of_root_file (d f : str) :
  is_segment d = true -> f <> [] -> forallb Path.not_slash f = true ->
  parent_of (d ++ lit "/" ++ f) = Throw (TypeError "replace").
Proof.
  intros Hd Hf Hs. destruct (is_segment_spec d Hd) as (Hne & Hsep & Hsl & _).
  unfold parent_of, pieces.
  rewrite dirname_of_root_file by assumption.
  rewrite normalize_segment by exact Hd.
  rewrite split_on_plain by exact Hsep. reflexivity.
Qed.

Lemma stub_outcome (dirs : list str) (file : str) (w : world) :
  (exists w', stub dirs file w = Ok w') \/
  stub dirs file w = Throw (TypeError "replace").
Proof.
  unfold stub, parent_of, filterName_of.
  destruct (second_last _); cbn [bind]; eauto.
Qed.

Lemma stub_pass_throws (dirs : list str) (files : list str) (file : str)
    (w : world) :
  In file files -> parent_of file = Throw (TypeError "replace") ->
  for_each (stub dirs) files w = Throw (TypeError "replace").
Proof.
  intros Hin Hp. revert w.
  induction files as [|x t IH]; intros w; [destruct Hin|].
  cbn [for_each]. destruct Hin as [-> | Hin].
  - unfold stub at 1. rewrite Hp. reflexivity.
  - destruct (stub_outcome dirs x w) as [(w' & ->) | ->]; cbn [bind]; auto.
Qed.

Lemma directories_outcome (globby_sync : bool -> patterns -> list str)
    (o : options) :
  (exists dirs, directories globby_sync o = Ok dirs) \/
  directories globby_sync o = Throw (TypeError "replace").
Proof.
  unfold directories.
  induction (globby_sync false (dirsGlob (opt_materials o))) as [|x t IH].
  - left. eexists. reflexivity.
  - cbn [map_each]. unfold filterName_of at 1.
    destruct (second_last (pieces x)); cbn [bind]; [|right; reflexivity].
    destruct IH as [(dirs & ->) | ->]; cbn [bind];
      [left; eexists; reflexivity | right; reflexivity].
Qed.

Lemma In_insert_sorted (x y : str) (l : list str) :
  In y (insert_sorted x l) <-> y = x \/ In y l.
Proof.
  induction l as [|z l IH]; cbn [insert_sorted].
  - simpl. intuition.
  - destruct (str_leb x z); simpl in *; intuition.
Qed.

Lemma In_sort (y : str) (l : list str) : In y (sort l) <-> In y l.
Proof.
  unfold sort. induction l as [|x l IH]; cbn [foldr]; [reflexivity|].
  rewrite In_insert_sorted, IH. simpl. intuition.
Qed.

(** X14.  A material that lies directly in a directory named by one
    segment, as [materials/button.html], has no grandparent directory to
    name its parent: [filterName] is then called on [undefined], and
    [parseMaterials] throws the type error of [replace], whatever the
    other files are. *)
Theorem parseMaterials_file_without_grandparent
    (globby_sync : bool -> patterns -> list str)
    (getMatter : str -> outcome fileMatter)
    (md_render : value -> outcome str) (string_to_number : str -> option Z)
    (render : gmap str str -> str -> obj -> outcome str)
    (websphere_export : options -> str -> obj -> world -> outcome world)
    (o : options) (w : world) (d f : str) :
  is_segment d = true -> f <> [] -> forallb Path.not_slash f = true ->
  In (d ++ lit "/" ++ f) (globby_sync true (opt_materials o)) ->
  parseMaterials globby_sync getMatter md_render string_to_number render
                 websphere_export o w
  = Throw (TypeError "replace").
Proof.
  intros Hd Hf Hs Hin. unfold parseMaterials.
  destruct (directories_outcome globby_sync o) as [(dirs & ->) | ->];
    cbn [bind]; [|reflexivity].
  rewrite (stub_pass_throws dirs _ (d ++ lit "/" ++ f)).
  - reflexivity.
  - apply In_sort. exact Hin.
  - apply parent_of_root_file; assumption.
Qed.

Lemma parseMaterials_file_without_grandparent_witness :
  parseMaterials tree_with_root_file (fun _ => Ok title_matter) no_markdown
                 no_numbers render_nothing no_export flat_root_glob empty_world
  = Throw (TypeError "replace").
Proof.
  apply (parseMaterials_file_without_grandparent tree_with_root_file
           (fun _ => Ok title_matter) no_markdown no_numbers render_nothing
           no_export flat_root_glob empty_world "materials" "button.html").
  - reflexivity.
  - discriminate.
  - reflexivity.
  - right. left. reflexivity.
Defined.

(** ** Field namespacer: a reference to a field *)

Lemma run_word_at {A} (w t : str) (k : cursor -> option A) :
  run (Word w) (Cursor false (w ++ t)) k = k (Cursor false t).
Proof.
  induction w as [|x w IH]; [reflexivity|].
  cbn [Word run Lit rest app]. rewrite chr_eqb_refl. exact IH.
Qed.

Lemma run_word_from {A} (x : ascii) (w t : str) (b : bool)
    (k : cursor -> option A) :
  run (Word (x :: w)) (Cursor b (x :: w ++ t)) k = k (Cursor false t).
Proof.
  cbn [Word run Lit rest]. rewrite chr_eqb_refl. apply run_word_at.
Qed.

Lemma between_app (b b' : bool) (m t : str) :
  between (Cursor b (m ++ t)) (Cursor b' t) = m.
Proof.
  unfold between. cbn [rest]. rewrite length_app.
  replace (length m + length t - length t)%nat with (length m) by lia.
  apply take_app_length.
Qed.

Lemma occurs_cons (w : str) (c : ascii) (s : str) :
  occurs w (c :: s) = false ->
  is_prefix w (c :: s) = false /\ occurs w s = false.
Proof. cbn [occurs]. apply orb_false_iff. Qed.

(** The patterns of the namespacer match only where [{{] is. *)
Lemma field_needs_open (key : str) (g : re * re * re) (c : cursor) :
  field_pattern key = Some g ->
  is_prefix "{{" (rest c) = false -> groups3 g c = None.
Proof.
  unfold field_pattern. destruct (rev key) as [|final front]; [discriminate|].
  destruct (forallb plain_char key); [|discriminate].
  intros [= <-] H. unfold groups3. cbn [fst snd run Word Lit].
  destruct (rest c) as [|x [|y t]]; [reflexivity| |].
  - destruct (chr_eqb "{" x); reflexivity.
  - cbn [is_prefix] in H. change (lit "{{") with ["{"%char; "{"%char] in H.
    cbn [is_prefix] in H. rewrite andb_true_r in H.
    destruct (chr_eqb "{" x); [|reflexivity]. cbn [rest].
    destruct (chr_eqb "{" y); [discriminate H|reflexivity].
Qed.

Lemma scan_without_open (key : str) (g : re * re * re) (s : str) :
  field_pattern key = Some g -> occurs "{{" s = false ->
  forall b, scan (groups3 g) b s = None.
Proof.
  intros Hg. induction s as [|c s IH]; intros Ho b.
  - cbn [scan]. rewrite (field_needs_open key g _ Hg); reflexivity.
  - apply occurs_cons in Ho as [Hp Ho].
    rewrite scan_miss by (apply (field_needs_open key g _ Hg); exact Hp).
    rewrite IH by exact Ho. reflexivity.
Qed.

Lemma is_prefix_open_app (c : ascii) (p m : str) :
  is_prefix "{{" ((c :: p) ++ lit "{" ++ m)
  = is_prefix "{{" ((c :: p) ++ lit "{").
Proof.
  destruct p as [|y p]; cbn; rewrite ?andb_true_r; reflexivity.
Qed.

Lemma scan_after_plain (key : str) (g : re * re * re) (pre m : str)
    (x : str * str * str) (after : str) :
  field_pattern key = Some g ->
  occurs "{{" (pre ++ lit "{") = false ->
  (forall b, groups3 g (Cursor b (lit "{" ++ m)) = Some (x, after)) ->
  forall b, scan (groups3 g) b (pre ++ lit "{" ++ m) = Some (pre, x, after).
Proof.
  intros Hg. induction pre as [|c pre IH]; intros Ho Hm b.
  - apply scan_hit. apply Hm.
  - cbn [app] in Ho. apply occurs_cons in Ho as [Hp Ho].
    change ((c :: pre) ++ lit "{" ++ m) with (c :: pre ++ lit "{" ++ m).
    rewrite scan_miss.
    + rewrite IH by assumption. reflexivity.
    + apply (field_needs_open key g _ Hg). cbn [rest].
      change (c :: pre ++ lit "{" ++ m) with ((c :: pre) ++ lit "{" ++ m).
      rewrite is_prefix_open_app. exact Hp.
Qed.

Lemma strip_spaces_plain (s : str) :
  forallb not_space s = true -> strip_spaces s = s.
Proof.
  intros H. unfold strip_spaces, re_space. rewrite replace_all_chr.
  induction s as [|c s IH]; [reflexivity|].
  cbn [forallb] in H. apply andb_true_iff in H as [Hc Hs].
  unfold not_space in Hc. apply negb_true_iff in Hc.
  cbn [flat_map]. rewrite Hc, IH by exact Hs. reflexivity.
Qed.

(** The match of the pattern of [key] at a reference [{{key}}]. *)
Lemma field_matches_reference (key : str) (g : re * re * re) (post : str)
    (b : bool) :
  field_pattern key = Some g ->
  forallb not_space key = true ->
  match key with c :: _ => negb (is_sigil c) | [] => false end = true ->
  groups3 g (Cursor b (lit "{" ++ lit "{" ++ key ++ lit "}}" ++ post))
  = Some ((lit "{{", key, lit "}}"), post).
Proof.
  unfold field_pattern. destruct (rev key) as [|final front] eqn:Er;
    [discriminate|].
  destruct (forallb plain_char key); [|discriminate].
  intros [= <-] Hsp Hsig.
  assert (Ek : key = rev front ++ [final]).
  { rewrite <- (rev_involutive key), Er. reflexivity. }
  destruct key as [|k0 key'] eqn:E0; [discriminate|]. rewrite <- E0 in *.
  assert (S0 : is_space k0 = false).
  { rewrite E0 in Hsp. cbn [forallb] in Hsp.
    apply andb_true_iff in Hsp as [H _]. apply negb_true_iff in H. exact H. }
  apply negb_true_iff in Hsig.
  set (c0 := Cursor b (lit "{" ++ lit "{" ++ key ++ lit "}}" ++ post)).
  set (c1 := Cursor false (key ++ lit "}}" ++ post)).
  set (c2 := Cursor false (lit "}}" ++ post)).
  set (c3 := Cursor false post).
  unfold groups3. cbn [fst snd].
  assert (R1 : forall k : cursor -> option (str * str * str * str),
             run (Seq (Word "{{") (Opt (Chr is_sigil))) c0 k = k c1).
  { intros k. cbn [run]. unfold c0.
    change (lit "{" ++ lit "{" ++ key ++ lit "}}" ++ post)
      with ("{"%char :: lit "{" ++ (key ++ lit "}}" ++ post)).
    change (Word "{{") with (Word ("{"%char :: lit "{")).
    rewrite run_word_from. unfold Opt. cbn [run rest].
    unfold c1. rewrite E0. cbn [app]. rewrite Hsig. reflexivity. }
  rewrite R1.
  assert (R2 : forall k : cursor -> option (str * str * str * str),
             k c2 <> None ->
             run (Seq (Opt (Chr is_space))
                    (Seq (Word (rev front))
                       (Seq (Plus Lazy (Lit final)) (Opt (Chr is_space)))))
                 c1 k = k c2).
  { intros k Hk. unfold Opt at 1. cbn [run]. unfold c1 at 1. cbn [rest].
    rewrite E0 at 1. cbn [app]. rewrite S0.
    unfold c1. rewrite Ek at 1. rewrite <- app_assoc.
    rewrite run_word_at. cbn [app run Plus Lit rest].
    rewrite chr_eqb_refl. fold c2.
    assert (K : run (Opt (Chr is_space)) c2 k = k c2).
    { unfold Opt. cbn [run]. unfold c2 at 1. cbn [rest]. reflexivity. }
    unfold c2 at 1 2. cbn [rest]. fold c2.
    destruct (length (lit "}}" ++ post)); cbn [star_loop]; rewrite K;
      destruct (k c2); congruence. }
  assert (R3 : forall k : cursor -> option (str * str * str * str),
             run (Seq (Lit "}") (Seq (Lit "}") Eps)) c2 k = k c3)
    by reflexivity.
  rewrite R2.
  - rewrite R3. cbn [rest]. unfold c0, c1, c2, c3.
    change (lit "{" ++ lit "{" ++ key ++ lit "}}" ++ post)
      with (lit "{{" ++ (key ++ lit "}}" ++ post)).
    rewrite !between_app. reflexivity.
  - rewrite R3. discriminate.
Qed.

(** X15.  A reference to a field of the material is qualified with the
    dashed id.  In a body [pre{{key}}post], where [key] is the one field of
    the front matter, is neither [length] nor made of digits only (so
    that [_.forEach] visits it as a key), is made of characters that
    stand for themselves in a pattern, has no white space and does not
    start with a sigil, and where [{{] occurs nowhere else, the namespacer
    rewrites the reference to [{{<dashed id>.key}}] and leaves [pre] and
    [post] as they are. *)
Theorem namespace_qualifies_reference (id key pre post : str) (v : value) :
  in_insertion_order [(key, v)] = true ->
  forallb plain_char key = true ->
  forallb not_space key = true ->
  match key with c :: _ => negb (is_sigil c) | [] => false end = true ->
  occurs "{{" (pre ++ lit "{") = false ->
  occurs "{{" post = false ->
  namespace id [(key, v)] (pre ++ lit "{{" ++ key ++ lit "}}" ++ post)
  = Ok (pre ++ lit "{{" ++ dashed id ++ lit "." ++ key ++ lit "}}" ++ post).
Proof.
  intros Hord Hplain Hsp Hsig Hpre Hpost.
  unfold namespace. rewrite Hord. cbn [for_each fst bind].
  unfold namespace_field.
  destruct (field_pattern key) as [g|] eqn:Hg.
  2:{ unfold field_pattern in Hg. rewrite Hplain in Hg.
      destruct (rev key) eqn:Er; [|discriminate Hg].
      apply (f_equal (@rev ascii)) in Er. rewrite rev_involutive in Er.
      subst key. discriminate Hsig. }
  cbn [bind]. f_equal.
  change (lit "{{" ++ key ++ lit "}}" ++ post)
    with (lit "{" ++ (lit "{" ++ key ++ lit "}}" ++ post)).
  unfold replace_all. cbn [replace_loop].
  rewrite (scan_after_plain key g pre _ (lit "{{", key, lit "}}") post Hg Hpre)
    by (intros b; apply field_matches_reference; assumption).
  assert (L : (length pre + length post
               <? length (pre ++ lit "{" ++ lit "{" ++ key ++ lit "}}" ++ post))%nat
              = true).
  { apply Nat.ltb_lt. rewrite !length_app. cbn [length lit]. simpl. lia. }
  rewrite L.
  assert (P : forall n, replace_loop n (groups3 g) (qualify id) false post
                        = post).
  { intros [|n]; [reflexivity|]. cbn [replace_loop].
    rewrite (scan_without_open key g post Hg Hpost). reflexivity. }
  rewrite P. unfold qualify. cbn [fst snd].
  rewrite strip_spaces_plain by exact Hsp.
  rewrite <- !app_assoc. reflexivity.
Qed.

Lemma namespace_qualifies_reference_witness :
  namespace "buttons.primary" [(lit "label", VStr "Go")]
            (lit "<a class='{a}'>" ++ lit "{{" ++ lit "label" ++ lit "}}"
             ++ lit "</a>")
  = Ok (lit "<a class='{a}'>" ++ lit "{{" ++ dashed "buttons.primary"
        ++ lit "." ++ lit "label" ++ lit "}}" ++ lit "</a>").
Proof.
  apply (namespace_qualifies_reference "buttons.primary" "label"
           "<a class='{a}'>" "</a>" (VStr "Go")); reflexivity.
Defined.

(** ** Page wrapper *)

(** Scanning for a pattern that can only match where the two characters
    [x], [y] are. *)
Lemma scan_no_opening {A} (try : attempt A) (x y : ascii) (s : str) :
  (forall c, is_prefix [x; y] (rest c) = false -> try c = None) ->
  occurs [x; y] s = false ->
  forall b, scan try b s = None.
Proof.
  intros Hneed. induction s as [|c s IH]; intros Ho b.
  - cbn [scan]. rewrite Hneed; reflexivity.
  - apply occurs_cons in Ho as [Hp Ho].
    rewrite scan_miss by (apply Hneed; exact Hp).
    rewrite IH by exact Ho. reflexivity.
Qed.

Lemma scan_to_opening {A} (try : attempt A) (x y : ascii) (pre m : str)
    (r : A) (after : str) :
  (forall c, is_prefix [x; y] (rest c) = false -> try c = None) ->
  occurs [x; y] (pre ++ [x]) = false ->
  (forall b, try (Cursor b (x :: m)) = Some (r, after)) ->
  forall b, scan try b (pre ++ x :: m) = Some (pre, r, after).
Proof.
  intros Hneed. induction pre as [|c pre IH]; intros Ho Hm b.
  - apply scan_hit. apply Hm.
  - cbn [app] in Ho. apply occurs_cons in Ho as [Hp Ho].
    change ((c :: pre) ++ x :: m) with (c :: pre ++ x :: m).
    rewrite scan_miss.
    + rewrite IH by assumption. reflexivity.
    + apply Hneed. cbn [rest]. rewrite <- Hp.
      destruct pre as [|d pre]; cbn [app is_prefix];
        rewrite ?andb_true_r; reflexivity.
Qed.

Lemma body_needs_opening (c : cursor) :
  is_prefix "{%" (rest c) = false -> whole re_body c = None.
Proof.
  intros H. unfold whole, re_body.
  change (Word "{%") with (Seq (Lit "{") (Seq (Lit "%") Eps)).
  cbn [run Lit].
  destruct (rest c) as [|x [|y t]]; [reflexivity| |].
  - destruct (chr_eqb "{" x); reflexivity.
  - change (lit "{%") with ["{"%char; "%"%char] in H.
    cbn [is_prefix] in H. rewrite andb_true_r in H.
    destruct (chr_eqb "{" x); [|reflexivity]. cbn [rest].
    destruct (chr_eqb "%" y); [discriminate H|reflexivity].
Qed.

Lemma run_blank {A} (s t : str) (x : ascii) (k : cursor -> option A) :
  blank s -> is_space x = false -> k (Cursor false (x :: t)) <> None ->
  run (Opt (Chr is_space)) (Cursor false (s ++ x :: t)) k
  = k (Cursor false (x :: t)).
Proof.
  intros [-> | (c & Hc & ->)] Hx Hk; unfold Opt; cbn [run rest app].
  - rewrite Hx. reflexivity.
  - rewrite Hc. destruct (k _); congruence.
Qed.

(** The match of the placeholder, with or without a blank on each side
    of [body]. *)
Lemma body_matches (s1 s2 post : str) (b : bool) :
  blank s1 -> blank s2 ->
  whole re_body
    (Cursor b ("{"%char :: lit "%" ++ s1 ++ lit "body" ++ s2 ++ lit "%}"
               ++ post))
  = Some (lit "{%" ++ s1 ++ lit "body" ++ s2 ++ lit "%}", post).
Proof.
  intros H1 H2. unfold whole, re_body. cbn [run].
  change (Word "{%") with (Word ("{"%char :: lit "%")).
  rewrite run_word_from.
  change (lit "body" ++ s2 ++ lit "%}" ++ post)
    with ("b"%char :: lit "ody" ++ s2 ++ lit "%}" ++ post).
  assert (K2 : forall k : cursor -> option (str * str),
             k (Cursor false post) <> None ->
             run (Opt (Chr is_space))
                 (Cursor false (s2 ++ lit "%}" ++ post))
                 (fun c => run (Word "%}") c k)
             = k (Cursor false post)).
  { intros k Hk.
    change (lit "%}" ++ post) with ("%"%char :: lit "}" ++ post).
    rewrite run_blank; [reflexivity|exact H2|reflexivity|].
    change (run (Word "%}") (Cursor false ("%"%char :: lit "}" ++ post)) k)
      with (k (Cursor false post)). exact Hk. }
  rewrite run_blank; [|exact H1|reflexivity|].
  - change (run (Word "body")
              (Cursor false ("b"%char :: lit "ody" ++ s2 ++ lit "%}" ++ post))
              ?k)
      with (run (Word "body")
              (Cursor false (lit "body" ++ (s2 ++ lit "%}" ++ post))) k).
    rewrite run_word_at, K2 by discriminate.
    cbn [rest]. f_equal. f_equal.
    change ("{"%char :: lit "%" ++ s1 ++ "b"%char :: lit "ody" ++ s2
            ++ lit "%}" ++ post)
      with (lit "{%" ++ s1 ++ lit "body" ++ s2 ++ lit "%}" ++ post).
    replace (lit "{%" ++ s1 ++ lit "body" ++ s2 ++ lit "%}" ++ post)
      with ((lit "{%" ++ s1 ++ lit "body" ++ s2 ++ lit "%}") ++ post)
      by (rewrite <- !app_assoc; reflexivity).
    apply between_app.
  - change (run (Word "body")
              (Cursor false ("b"%char :: lit "ody" ++ s2 ++ lit "%}" ++ post))
              ?k)
      with (run (Word "body")
              (Cursor false (lit "body" ++ (s2 ++ lit "%}" ++ post))) k).
    rewrite run_word_at, K2; discriminate.
Qed.

Lemma substitution_app_plain (matched before after a t : str) :
  forallb no_dollar a = true ->
  substitution matched before after (a ++ t)
  = a ++ substitution matched before after t.
Proof.
  induction a as [|c a IH]; [reflexivity|].
  cbn [forallb]. intros H. apply andb_true_iff in H as [Hc Ha].
  unfold no_dollar in Hc. apply negb_true_iff in Hc.
  cbn [app substitution]. rewrite Hc, IH by exact Ha. reflexivity.
Qed.

Lemma substitution_plain (matched before after a : str) :
  forallb no_dollar a = true -> substitution matched before after a = a.
Proof.
  intros H. rewrite <- (app_nil_r a) at 1.
  rewrite substitution_app_plain by exact H. apply app_nil_r.
Qed.

(** What [wrapPage] does with a layout whose first placeholder is known. *)
Lemma wrapPage_at_placeholder (page pre s1 s2 post : str) :
  blank s1 -> blank s2 -> occurs "{%" (pre ++ lit "{") = false ->
  wrapPage page (VStr (around pre s1 s2 post))
  = Ok (pre ++ substitution (lit "{%" ++ s1 ++ lit "body" ++ s2 ++ lit "%}")
                            pre post page ++ post).
Proof.
  intros H1 H2 Hpre. unfold wrapPage, replace_pattern, around.
  change (lit "{%" ++ s1 ++ lit "body" ++ s2 ++ lit "%}" ++ post)
    with ("{"%char :: lit "%" ++ s1 ++ lit "body" ++ s2 ++ lit "%}" ++ post).
  rewrite (scan_to_opening (whole re_body) "{" "%" pre _
             (lit "{%" ++ s1 ++ lit "body" ++ s2 ++ lit "%}") post).
  - reflexivity.
  - exact body_needs_opening.
  - exact Hpre.
  - intros b. apply body_matches; assumption.
Qed.

(** X16.  The page takes the place of the first placeholder.  For a
    page without a dollar sign and a layout [pre{% body %}post] (the
    blanks optional) with no [{%] before the placeholder, [wrapPage] gives
    [pre], the page, [post]: whatever [post] holds, further placeholders
    too, stays. *)
Theorem wrapPage_inserts_page (page pre s1 s2 post : str) :
  forallb no_dollar page = true ->
  blank s1 -> blank s2 -> occurs "{%" (pre ++ lit "{") = false ->
  wrapPage page (VStr (around pre s1 s2 post)) = Ok (pre ++ page ++ post).
Proof.
  intros Hp H1 H2 Hpre.
  rewrite wrapPage_at_placeholder by assumption.
  rewrite substitution_plain by exact Hp. reflexivity.
Qed.

Lemma wrapPage_inserts_page_witness :
  wrapPage "<h1>Home</h1>"
           (VStr (around "<body>" " " " " "</body>{% body %}"))
  = Ok (lit "<body>" ++ lit "<h1>Home</h1>" ++ lit "</body>{% body %}").
Proof.
  apply (wrapPage_inserts_page "<h1>Home</h1>" "<body>" " " " "
           "</body>{% body %}").
  - reflexivity.
  - right. exists " "%char. split; reflexivity.
  - right. exists " "%char. split; reflexivity.
  - reflexivity.
Defined.

(** X17.  A layout in which [{%] does not occur has no placeholder:
    [wrapPage] returns the layout as it is, and the page is lost. *)
Theorem wrapPage_without_placeholder (page layout : str) :
  occurs "{%" layout = false -> wrapPage page (VStr layout) = Ok layout.
Proof.
  intros H. unfold wrapPage, replace_pattern.
  rewrite (scan_no_opening (whole re_body) "{" "%" layout
             body_needs_opening H).
  reflexivity.
Qed.

Lemma wrapPage_without_placeholder_witness :
  wrapPage "<h1>Home</h1>" (VStr "<body>{{ body }}</body>")
  = Ok (lit "<body>{{ body }}</body>").
Proof.
  apply (wrapPage_without_placeholder "<h1>Home</h1>"
           "<body>{{ body }}</body>").
  reflexivity.
Defined.

(** X18.  The page is used as a replacement pattern, so its dollar signs
    are not all kept: in a page [a$$b] one of the two dollar signs is
    dropped, and in a page [a$&b] the two characters [$&] become the
    placeholder of the layout. *)
Theorem wrapPage_dollar_patterns (a b pre s1 s2 post : str) :
  forallb no_dollar a = true -> forallb no_dollar b = true ->
  blank s1 -> blank s2 -> occurs "{%" (pre ++ lit "{") = false ->
  wrapPage (a ++ lit "$$" ++ b) (VStr (around pre s1 s2 post))
  = Ok (pre ++ (a ++ lit "$" ++ b) ++ post) /\
  wrapPage (a ++ lit "$&" ++ b) (VStr (around pre s1 s2 post))
  = Ok (pre ++ (a ++ (lit "{%" ++ s1 ++ lit "body" ++ s2 ++ lit "%}") ++ b)
        ++ post).
Proof.
  intros Ha Hb H1 H2 Hpre.
  rewrite !wrapPage_at_placeholder by assumption.
  split.
  - rewrite (substitution_app_plain _ _ _ a _ Ha).
    change (lit "$$" ++ b) with ("$"%char :: "$"%char :: b).
    cbn [substitution]. change (chr_eqb "$" "$") with true. cbv iota.
    rewrite substitution_plain by exact Hb. reflexivity.
  - rewrite (substitution_app_plain _ _ _ a _ Ha).
    change (lit "$&" ++ b) with ("$"%char :: "&"%char :: b).
    cbn [substitution]. change (chr_eqb "$" "$") with true.
    change (chr_eqb "&" "$") with false.
    change (chr_eqb "&" "&") with true. cbv iota.
    rewrite substitution_plain by exact Hb. reflexivity.
Qed.

Lemma wrapPage_dollar_patterns_witness :
  wrapPage (lit "Price: " ++ lit "$$" ++ lit "5")
           (VStr (around "<body>" [] [] "</body>"))
  = Ok (lit "<body>" ++ (lit "Price: " ++ lit "$" ++ lit "5")
        ++ lit "</body>") /\
  wrapPage (lit "Price: " ++ lit "$&" ++ lit "5")
           (VStr (around "<body>" [] [] "</body>"))
  = Ok (lit "<body>"
        ++ (lit "Price: " ++ (lit "{%" ++ [] ++ lit "body" ++ [] ++ lit "%}")
            ++ lit "5")
        ++ lit "</body>").
Proof.
  apply (wrapPage_dollar_patterns "Price: " "5" "<body>" [] [] "</body>").
  - reflexivity.
  - reflexivity.
  - left. reflexivity.
  - left. reflexivity.
  - reflexivity.
Defined.

(** ** Layouts *)





(** ** Views *)

Lemma view_file_step (getMatter : str -> outcome fileMatter) (o : options)
    (file : str) (w : world) (fm : fileMatter) :
  getMatter file = Ok fm ->
  collections (assembly.views (asm w)) ->
  exists w',
    view_file getMatter o file w = Ok w' /\
    collections (assembly.views (asm w')) /\
    (forall c, has (assembly.views (asm w')) c
               = has (assembly.views (asm w)) c
                 || (negb (str_eqb (view_collection o file) [])
                     && str_eqb (view_collection o file) c)) /\
    assembly.layouts (asm w') = assembly.layouts (asm w) /\
    assembly.materials (asm w') = assembly.materials (asm w) /\
    disk w' = disk w /\ partials w' = partials w.
Proof.
  intros Hm Hwf. unfold view_file. rewrite Hm. cbn [bind truthy].
  set (c0 := view_collection o file).
  destruct (str_eqb c0 []) eqn:E0; cbn [negb andb].
  - exists w. split; [reflexivity|]. split; [exact Hwf|].
    split; [intros c; rewrite orb_false_r; reflexivity|].
    repeat split; reflexivity.
  - set (v := assembly.views (asm w)) in *.
    set (fresh := VObj [(lit "name", VStr (toTitleCase c0));
                        (lit "items", VObj [])]).
    assert (X : exists node items,
               js_or (prop v c0) fresh = VObj node /\
               obj_get node "items" = Some (VObj items)).
    { unfold js_or, prop. destruct (obj_get v c0) as [x|] eqn:Ex.
      - destruct (Hwf c0 x Ex) as (node & items & -> & Hi).
        cbn [truthy]. eauto.
      - cbn [truthy]. unfold fresh. eexists. eexists.
        split; reflexivity. }
    destruct X as (node & items & -> & Hitems).
    cbn [assign_path get_prop bind]. rewrite prop_set_same.
    cbn [get_prop bind]. unfold prop at 1. rewrite Hitems.
    cbn [set_prop bind].
    eexists. split; [reflexivity|].
    destruct w as [[] ? ?].
    cbn [with_views asm assembly.views assembly.layouts assembly.materials
         disk partials] in *.
    split; [|split; [|repeat split; reflexivity]].
    + intros c x Hx. rewrite !obj_get_set in Hx.
      destruct (str_eqb c0 c) eqn:Ec.
      * injection Hx as <-. eexists. eexists. split; [reflexivity|].
        rewrite obj_get_set. reflexivity.
      * apply (Hwf c x). exact Hx.
    + intros c. unfold has. rewrite !obj_get_set.
      destruct (str_eqb c0 c); [|rewrite orb_false_r; reflexivity].
      rewrite orb_true_r. reflexivity.
Qed.

Lemma views_pass (getMatter : str -> outcome fileMatter) (o : options)
    (files : list str) :
  (forall f, In f files -> exists fm, getMatter f = Ok fm) ->
  forall w0,
    collections (assembly.views (asm w0)) ->
    exists w',
      for_each (view_file getMatter o) files w0 = Ok w' /\
      (forall c, has (assembly.views (asm w')) c
                 = has (assembly.views (asm w0)) c
                   || existsb (fun f =>
                                 negb (str_eqb (view_collection o f) [])
                                 && str_eqb (view_collection o f) c) files) /\
      assembly.layouts (asm w') = assembly.layouts (asm w0) /\
      assembly.materials (asm w') = assembly.materials (asm w0) /\
      disk w' = disk w0 /\ partials w' = partials w0.
Proof.
  induction files as [|f t IH]; intros Hm w0 Hwf.
  - exists w0. split; [reflexivity|].
    split; [intros c; cbn [existsb]; rewrite orb_false_r; reflexivity|].
    repeat split; reflexivity.
  - destruct (Hm f) as (fm & Hf); [left; reflexivity|].
    destruct (view_file_step getMatter o f w0 fm Hf Hwf)
      as (w1 & Hstep & Hwf1 & Hhas1 & Hl1 & Hm1 & Hd1 & Hp1).
    destruct (IH (fun f' H => Hm f' (or_intror H)) w1 Hwf1)
      as (w' & Hrun & Hhas & Hl & Hmat & Hd & Hp).
    exists w'. cbn [for_each]. rewrite Hstep. cbn [bind].
    split; [exact Hrun|].
    split; [|repeat split; congruence].
    intros c. rewrite Hhas, Hhas1. cbn [existsb]. rewrite orb_assoc.
    reflexivity.
Qed.

(** X20.  The collections of the views are the directories of the view
    files, the views directory itself apart.  When the front matter of
    every view can be read, and no view or directory of a view is named
    like a member of [Object.prototype], [parseViews] returns; afterwards
    the views hold
    a collection [c] exactly when some file of the glob lies in a directory
    named [c] and [c] is neither empty nor the key of the views.  The views
    that lie directly in the views directory are recorded nowhere. *)
Theorem parseViews_collections (globby_sync : bool -> patterns -> list str)
    (getMatter : str -> outcome fileMatter) (o : options) (g : globs.t)
    (w : world) :
  (forall f, In f (globby_sync true (globs.views g)) ->
             (exists fm, getMatter f = Ok fm) /\
             inherited (view_dirname f) = false /\
             inherited (getName f true) = false) ->
  exists w',
    parseViews globby_sync getMatter o g w = Ok w' /\
    (forall c,
       has (assembly.views (asm w')) c = true <->
       c <> [] /\ c <> key_views o /\
       exists f, In f (globby_sync true (globs.views g)) /\
                 view_dirname f = c) /\
    has (assembly.views (asm w')) (key_views o) = false.
Proof.
  intros Hm'.
  assert (Hm : forall f, In f (globby_sync true (globs.views g)) ->
                         exists fm, getMatter f = Ok fm)
    by (intros f Hf; exact (proj1 (Hm' f Hf))).
  unfold parseViews.
  destruct (views_pass getMatter o (globby_sync true (globs.views g)) Hm
              (with_views w []))
    as (w' & Hrun & Hhas & _).
  { destruct w as [[] ? ?]. intros c x H. discriminate H. }
  exists w'. split; [exact Hrun|].
  assert (H0 : forall c, has (assembly.views (asm (with_views w []))) c
                         = false).
  { intros c. destruct w as [[] ? ?]. reflexivity. }
  assert (Hiff : forall c,
             has (assembly.views (asm w')) c = true <->
             c <> [] /\ c <> key_views o /\
             exists f, In f (globby_sync true (globs.views g)) /\
                       view_dirname f = c).
  { intros c. rewrite Hhas, H0. cbn [orb]. rewrite existsb_exists. split.
    - intros (f & Hf & Hc). apply andb_true_iff in Hc as [Hne Heq].
      apply str_eqb_eq in Heq. apply negb_true_iff in Hne.
      rewrite Heq in Hne. apply str_eqb_neq in Hne.
      unfold view_collection in Heq.
      destruct (str_eqb (view_dirname f) (key_views o)) eqn:Ek.
      + congruence.
      + apply str_eqb_neq in Ek. split; [exact Hne|].
        split; [congruence|]. exists f. split; [exact Hf|exact Heq].
    - intros (Hne & Hk & f & Hf & Hd). exists f. split; [exact Hf|].
      unfold view_collection. rewrite Hd.
      apply str_eqb_neq in Hk, Hne. rewrite Hk, Hne, str_eqb_refl.
      reflexivity. }
  split; [exact Hiff|].
  destruct (has (assembly.views (asm w')) (key_views o)) eqn:E;
    [|reflexivity].
  apply Hiff in E as (_ & Hk & _). congruence.
Qed.

Lemma parseViews_collections_witness :
  exists w',
    parseViews layout_tree (fun _ => Ok title_matter) defaults layout_glob
               layout_world = Ok w' /\
    (forall c,
       has (assembly.views (asm w')) c = true <->
       c <> [] /\ c <> key_views defaults /\
       exists f, In f (layout_tree true (globs.views layout_glob)) /\
                 view_dirname f = c) /\
    has (assembly.views (asm w')) (key_views defaults) = false.
Proof.
  apply (parseViews_collections layout_tree (fun _ => Ok title_matter)
           defaults layout_glob layout_world).
  intros f Hf. split; [exists title_matter; reflexivity|].
  cbn in Hf. destruct Hf as [<- | [<- | []]]; split; vm_compute; reflexivity.
Defined.

(** ** Assembler *)






(** *** Paths made of segments *)






(** *** The extension of a page *)













(** ** Titles *)

Lemma scan_ext {A} (try try' : attempt A) :
  (forall c, try c = try' c) ->
  forall s b, scan try b s = scan try' b s.
Proof.
  intros H. induction s as [|c t IH]; intros b; cbn [scan]; rewrite H.
  - reflexivity.
  - rewrite IH. reflexivity.
Qed.

Lemma replace_loop_ext {A} (try try' : attempt A) (f : A -> str) :
  (forall c, try c = try' c) ->
  forall n b s, replace_loop n try f b s = replace_loop n try' f b s.
Proof.
  intros H. induction n as [|n IH]; intros b s; [reflexivity|].
  cbn [replace_loop]. rewrite (scan_ext try try' H).
  destruct (scan try' b s) as [[[pre x] after]|]; [|reflexivity].
  rewrite IH. destruct after as [|c t]; [reflexivity|].
  rewrite IH. reflexivity.
Qed.

Lemma whole_alt_lit (a b : ascii) (c : cursor) :
  whole (Alt (Lit a) (Lit b)) c
  = whole (Chr (fun x => chr_eqb a x || chr_eqb b x)) c.
Proof.
  unfold whole. cbn [run Lit]. destruct (rest c) as [|x t]; [reflexivity|].
  destruct (chr_eqb a x), (chr_eqb b x); reflexivity.
Qed.

(** A replacement of whole matches that keeps the length of each match
    and a property of its characters keeps them for the subject. *)
Lemma replace_loop_keeps (r : re) (f : str -> str) (q : ascii -> bool) :
  (forall m, length (f m) = length m) ->
  (forall m, forallb q m = true -> forallb q (f m) = true) ->
  forall n b s,
    forallb q s = true ->
    length (replace_loop n (whole r) f b s) = length s /\
    forallb q (replace_loop n (whole r) f b s) = true.
Proof.
  intros Hlen Hq. induction n as [|n IH]; intros b s Hs.
  - split; [reflexivity|exact Hs].
  - cbn [replace_loop].
    destruct (scan (whole r) b s) as [[[pre m] after]|] eqn:S;
      [|split; [reflexivity|exact Hs]].
    pose proof (scan_split r s b pre m after S) as E.
    rewrite E in Hs. rewrite !forallb_app in Hs.
    apply andb_true_iff in Hs as [Hpre Hs].
    apply andb_true_iff in Hs as [Hm Hafter].
    assert (T : length (match after with
                        | [] => []
                        | c :: t => c :: replace_loop n (whole r) f false t
                        end) = length after /\
                forallb q (match after with
                           | [] => []
                           | c :: t => c :: replace_loop n (whole r) f false t
                           end) = true).
    { destruct after as [|c t]; [split; reflexivity|].
      cbn [forallb] in Hafter. apply andb_true_iff in Hafter as [Hc Ht].
      destruct (IH false t Ht) as [L Q]. cbn [length forallb].
      rewrite L, Hc, Q. split; reflexivity. }
    destruct (IH false after Hafter) as [L Q]. destruct T as [L' Q'].
    set (tail := if (length pre + length after <? length s)%nat
                 then replace_loop n (whole r) f false after
                 else match after with
                      | [] => []
                      | c :: t => c :: replace_loop n (whole r) f false t
                      end).
    assert (Ht : length tail = length after /\ forallb q tail = true).
    { unfold tail. destruct (length pre + length after <? length s)%nat;
        split; assumption. }
    destruct Ht as [Lt Qt]. rewrite E at 1.
    rewrite !length_app, !forallb_app, Hlen, Lt, Hpre, (Hq m Hm), Qt.
    split; reflexivity.
Qed.

Lemma case_keeps_no_dash (c : ascii) :
  no_dash c = true ->
  no_dash (to_upper c) = true /\ no_dash (to_lower c) = true.
Proof.
  destruct c as [[] [] [] [] [] [] [] []]; intros H;
    try discriminate H; split; reflexivity.
Qed.

Lemma capitalize_keeps (m : str) :
  length (capitalize m) = length m /\
  (forallb no_dash m = true -> forallb no_dash (capitalize m) = true).
Proof.
  destruct m as [|c t]; [split; [reflexivity|auto]|].
  cbn [capitalize length]. rewrite length_map. split; [reflexivity|].
  cbn [forallb]. intros H. apply andb_true_iff in H as [Hc Ht].
  rewrite (proj1 (case_keeps_no_dash c Hc)). cbn [andb].
  induction t as [|d t IH]; [reflexivity|].
  cbn [forallb map] in *. apply andb_true_iff in Ht as [Hd Ht].
  rewrite (proj2 (case_keeps_no_dash d Hd)), (IH Ht). reflexivity.
Qed.

(** X24.  For a name of Latin-1 characters (the strings of the
    embedding: code units below 256, whose change of case is again one
    such code unit), the title has the length of the name, and neither a
    dash nor an underscore is left in it. *)
Theorem toTitleCase_shape (s : str) :
  length (toTitleCase s) = length s /\
  forallb no_dash (toTitleCase s) = true.
Proof.
  unfold toTitleCase, re_dash_or_underscore.
  set (spaced := replace_all _ _ s).
  assert (H : length spaced = length s /\ forallb no_dash spaced = true).
  { unfold spaced, replace_all.
    rewrite (replace_loop_ext _ _ _ (whole_alt_lit "-" "_")).
    rewrite replace_loop_chr by lia. clear spaced.
    induction s as [|c t [IL IQ]]; [split; reflexivity|].
    cbn [flat_map].
    destruct (chr_eqb "-" c || chr_eqb "_" c) eqn:E.
    - change (lit " ") with [" "%char] in *. cbn [app length forallb].
      change (no_dash " ") with true. rewrite IL, IQ. split; reflexivity.
    - cbn [app length forallb]. unfold no_dash at 1. rewrite E, IL, IQ.
      split; reflexivity. }
  destruct H as [HL HQ]. unfold replace_all.
  destruct (replace_loop_keeps re_word capitalize no_dash
              (fun m => proj1 (capitalize_keeps m))
              (fun m => proj2 (capitalize_keeps m))
              (S (length spaced)) true spaced HQ) as [L Q].
  rewrite L, Q, HL. split; reflexivity.
Qed.

(** ** Data, docs and includes *)










(** ** Material registry: the tree through the passes *)
















(** ** Material registry: the round trip in the passes *)



